(** * panza-lexer: the token registry and the matching engine of tokens.go

    A shallow embedding of [src/tokens.go] and the properties of its
    specification, each settled against the embedded code.

    Conventions of the embedding.
    - A Go [string] and a [tokenSignature] ([[]byte]) are both byte
      sequences: [list ascii].  [len] is [length], converted to [Z].
    - [tokenId] is [uint16], [tokenPosition] and [tokenLineNo] are [uint64]:
      values are [Z] and every arithmetic operation of the source on them is
      followed by its wrap-around ([wrap16], [wrap64]).  [int] values of the
      source are lengths of strings, or one more, and are plain [Z].
    - A slice expression [s[lo:hi]] panics at run time unless
      [0 <= lo <= hi <= len(s)]; unbounded recursion ends in a fatal stack
      overflow.  Functions that can do either return an [outcome]:
      [Done v], [Panic] or [OutOfFuel] (the recursion budget ran out).
    - The package-level variables ([tokenKindId], the two running maxima and
      the [tokenKinds] map) are the record [Globals], passed explicitly.
    - Files are read through a [bufio.Scanner]: a file is the list of the
      texts that the scanner yields.
    - [tokenKindMap] is a [gmap]; indexing it at a missing key yields the
      zero [TokenKind], as in Go.  Go ranges over a map in an unspecified
      order; [Ids] uses the order of [map_to_list].  The engine only ever
      looks at the length of an id list and at the single member of a
      one-element list, so its results do not depend on that order. *)

From Stdlib Require Import ZArith Ascii String List Lia DecimalString.

From stdpp Require Import base list gmap strings.

Local Open Scope Z_scope.

(** ** Byte strings *)

Definition bytes := list ascii.

(** [b "abc"] is the byte string of a literal, the [tokenSignature("abc")]
    and [tokenName("abc")] conversions of the source. *)
Definition b (s : string) : bytes := list_ascii_of_string s.

(** [len] of a string or of a slice. *)
Definition len {A} (s : list A) : Z := Z.of_nat (length s).

Definition wrap16 (z : Z) : Z := z mod 2 ^ 16.

Definition wrap64 (z : Z) : Z := z mod 2 ^ 64.

(** [int(x)] for an [uint64] value [x]: two's complement reinterpretation. *)
Definition toInt (z : Z) : Z := if z <? 2 ^ 63 then z else z - 2 ^ 64.

(** ** Outcomes of code that may panic or recurse without bound *)

Inductive outcome (A : Type) : Type :=
| Done (a : A)
| Panic
| OutOfFuel.

Arguments Done {A} a.

Arguments Panic {A}.

Arguments OutOfFuel {A}.

#[global] Instance outcome_ret : MRet outcome := fun A a => Done a.

#[global] Instance outcome_bind : MBind outcome := fun A B k m =>
  match m with
  | Done a => k a
  | Panic => Panic
  | OutOfFuel => OutOfFuel
  end.

#[global] Instance outcome_fmap : FMap outcome := fun A B f m =>
  match m with
  | Done a => Done (f a)
  | Panic => Panic
  | OutOfFuel => OutOfFuel
  end.

(** [s[lo:hi]] with the run-time bounds check of Go. *)
Definition slice (s : bytes) (lo hi : Z) : outcome bytes :=
  if (0 <=? lo) && (lo <=? hi) && (hi <=? len s)
  then Done (take (Z.to_nat (hi - lo)) (drop (Z.to_nat lo) s))
  else Panic.

(** [s[lo:]] *)
Definition sliceFrom (s : bytes) (lo : Z) : outcome bytes :=
  slice s lo (len s).

(** [s[:hi]] *)
Definition sliceTo (s : bytes) (hi : Z) : outcome bytes :=
  slice s 0 hi.

(** ** Signatures *)

Definition byte_eqb (x y : ascii) : bool := bool_decide (x = y).

Fixpoint hasPrefix (s p : bytes) : bool :=
  match p, s with
  | [], _ => true
  | _ :: _, [] => false
  | c :: p', d :: s' => byte_eqb c d && hasPrefix s' p'
  end.

(** [strings.Contains(s, substr)]: [substr] occurs in [s] as a contiguous
    block; the empty string occurs in every string. *)
Fixpoint strContains (s substr : bytes) : bool :=
  hasPrefix s substr ||
  match s with
  | [] => false
  | _ :: s' => strContains s' substr
  end.

(** The methods of [tokenSignature] (tokens.go:22-36). *)
Module tokenSignature.

Definition Contains (ts ots : bytes) : bool := strContains ts ots.

Definition Compare (ts ots : bytes) : bool := bool_decide (ts = ots).

End tokenSignature.

(** ** Token kinds and objects *)

(** [TokenKind] (tokens.go:42-46); [Id] is a [tokenId], 16 bits wide. *)
Record TokenKind : Type := mkTokenKind {
  Id : Z;
  Name : bytes;
  Signature : bytes
}.

(** The zero value of the struct, what indexing a map at a missing key
    returns. *)
Definition zeroTokenKind : TokenKind := mkTokenKind 0 [] [].

(** [TokenObject] (tokens.go:62-67).  [Kind] is a pointer to a copy of the
    kind made by [New]; [LineNo] and [Position] are 64 bits wide. *)
Record TokenObject : Type := mkTokenObject {
  Kind : TokenKind;
  LineNo : Z;
  Position : Z;
  Symbol : bytes
}.

Module TokenKindM.

(** [tk.New(line, pos, symbol)]: the object holds a copy of the kind. *)
Definition New (tk : TokenKind) (line pos : Z) (symbol : bytes) : TokenObject :=
  mkTokenObject tk line pos symbol.

End TokenKindM.

(** ** Package state and registration *)

(** The package-level variables (tokens.go:75-82 and 182). *)
Record Globals : Type := mkGlobals {
  tokenKindId : Z;
  tokenKindNameMaxSize : Z;
  tokenKindSignatureMaxSize : Z;
  tokenKinds : gmap Z TokenKind
}.

(** Their initial values. *)
Definition initGlobals : Globals := mkGlobals 0 0 0 ∅.

(** [newKind(name, sig)] (tokens.go:85-98): the new kind and the updated
    package state.  [tokenKindId += 1] wraps at 2^16. *)
Definition newKind (G : Globals) (name sig : bytes) : Globals * TokenKind :=
  let id := tokenKindId G in
  let nameMax :=
    if len name >? tokenKindNameMaxSize G then len name
    else tokenKindNameMaxSize G in
  let sigMax :=
    if len sig >? tokenKindSignatureMaxSize G then len sig
    else tokenKindSignatureMaxSize G in
  (mkGlobals (wrap16 (id + 1)) nameMax sigMax (tokenKinds G),
   mkTokenKind id name sig).

(** The methods of [tokenKindMap] (tokens.go:106-179). *)
Module tokenKindMap.

(** [tkm[id]]: the zero kind when [id] is not a key. *)
Definition index (tkm : gmap Z TokenKind) (id : Z) : TokenKind :=
  default zeroTokenKind (tkm !! id).

(** [Ids()]: the keys, in the order the map is ranged over. *)
Definition Ids (tkm : gmap Z TokenKind) : list Z := (map_to_list tkm).*1.

Definition Get (tkm : gmap Z TokenKind) (id : Z) : TokenKind := index tkm id.

(** [Find(sig, ids...)]: the ids, among [ids] or among all keys when [ids]
    is empty, whose signature contains [sig]. *)
Definition Find (tkm : gmap Z TokenKind) (sig : bytes) (ids : list Z)
    : list Z :=
  let ids := if negb (0 <? len ids) then Ids tkm else ids in
  List.filter
    (fun id => tokenSignature.Contains (Signature (index tkm id)) sig) ids.

(** [FindEx(sig, ids...)]: the same with equality of signatures. *)
Definition FindEx (tkm : gmap Z TokenKind) (sig : bytes) (ids : list Z)
    : list Z :=
  let ids := if negb (0 <? len ids) then Ids tkm else ids in
  List.filter
    (fun id => tokenSignature.Compare (Signature (index tkm id)) sig) ids.

End tokenKindMap.

(** [tokenKinds.Add(name, sig)] (tokens.go:124-127) on the package state. *)
Definition Add (G : Globals) (name sig : bytes) : Globals :=
  let '(G', kind) := newKind G name sig in
  mkGlobals (tokenKindId G') (tokenKindNameMaxSize G')
            (tokenKindSignatureMaxSize G')
            (<[Id kind := kind]> (tokenKinds G')).

(** ** Tokenizing *)

Section Tokenizing.

Variable G : Globals.

Let tkm := tokenKinds G.

(** [calcStep(line)] (tokens.go:195-199). *)
Definition calcStep (line : bytes) : Z :=
  let step := tokenKindSignatureMaxSize G in
  let step := step - (step - len line) in
  wrap64 step.

(** [calcView(line, pos, step)] (tokens.go:202-207). *)
Definition calcView (line : bytes) (pos step : Z) : outcome bytes :=
  if toInt (wrap64 (pos + step)) >? len line
  then sliceFrom line pos
  else slice line pos (wrap64 (pos + step)).

(** [calcViewR(line, pos, step)] (tokens.go:210-215); [pos - step] is an
    unsigned difference. *)
Definition calcViewR (line : bytes) (pos step : Z) : outcome bytes :=
  if wrap64 (pos - step) >? 0
  then slice line 0 0
  else slice line (wrap64 (pos - step)) pos.

(** The loop of [isToken] (tokens.go:228-237), entered with the loop
    condition still to be tested; [n] bounds the number of iterations. *)
Fixpoint isToken_loop (n : nat) (line : bytes) (step : Z)
    (sig view : bytes) (matches : list Z) : outcome (bytes * list Z) :=
  if negb (bool_decide (len matches = 0) || bool_decide (view = b " "))
  then Done (sig, matches)
  else
    match n with
    | O => OutOfFuel
    | S n' =>
        let matches := tokenKindMap.Find tkm sig matches in
        if bool_decide (wrap64 (step - 1) = 0)
        then Done (sig, matches)
        else
          let step := wrap64 (step - 1) in
          sig ← sliceTo line step;
          view ← slice line (wrap64 (step - 1)) step;
          isToken_loop n' line step sig view matches
    end.

(** [isToken(line)] (tokens.go:221-242).  The loop lowers [step] from
    [len(line)] to 1, so [len(line) + 1] iterations are enough
    ([isToken_returns]). *)
Definition isToken (line : bytes) : outcome bool :=
  let step := calcStep line in
  view ← calcViewR line step 1;
  let sig := line in
  let matches := tokenKindMap.Find tkm sig [] in
  '(sig, matches) ← isToken_loop (S (length line)) line step sig view matches;
  let matches := tokenKindMap.FindEx tkm sig matches in
  Done (0 <? len matches).

(** [findToken(line, step, ids...)] (tokens.go:253-294); [fuel] bounds the
    depth of the recursion. *)
Fixpoint findToken (fuel : nat) (line : bytes) (step : Z) (ids : list Z)
    : outcome (Z * bytes) :=
  match fuel with
  | O => OutOfFuel
  | S fuel' =>
      view ← calcView line 0 step;
      let sig := view in
      let ids := if bool_decide (len ids = 0)
                 then tokenKindMap.Find tkm sig ids else ids in
      match ids with
      | [] => Done (1, line)
      | [_] =>
          let ids := tokenKindMap.FindEx tkm sig ids in
          match ids with
          | [] => findToken fuel' line (wrap64 (step + 1)) ids
          | id0 :: _ => Done (id0, sig)
          end
      | _ =>
          ahead ← calcView line step 1;
          tok ← isToken ahead;
          if negb tok
          then
            let ids := tokenKindMap.FindEx tkm sig ids in
            let ids := if bool_decide (len ids = 0) then ids ++ [1] else ids in
            findToken fuel' line step ids
          else findToken fuel' line (wrap64 (step + 1)) ids
      end
  end.

(** The loop of [findIdenToken] (tokens.go:314-320); [n] bounds the number
    of iterations. *)
Fixpoint findIdenToken_loop (n : nat) (line : bytes) (step : Z)
    (view lookAhead : bytes) : outcome bytes :=
  tok ← isToken lookAhead;
  if negb tok
  then
    match n with
    | O => OutOfFuel
    | S n' =>
        view ← sliceTo line step;
        lookAhead ← sliceFrom line step;
        let step := step + 1 in
        if step >? len line
        then Done view
        else findIdenToken_loop n' line step view lookAhead
    end
  else Done view.

(** [findIdenToken(line)] (tokens.go:297-322).  The loop raises [step] from
    1 to past [len(line)], so [len(line) + 1] iterations are enough. *)
Definition findIdenToken (line : bytes) : outcome bytes :=
  if bool_decide (len line = 1)
  then Done line
  else
    let step := 1 in
    view ← sliceTo line step;
    lookAhead ← sliceFrom line step;
    findIdenToken_loop (S (length line)) line step view lookAhead.

(** The loop of [TokenizeLine] (tokens.go:329-341); [fuel] bounds its
    iterations and the recursion of each [findToken] it calls. *)
Fixpoint TokenizeLine_loop (fuel : nat) (line : bytes) (lineNo pos : Z)
    (tokens : list TokenObject) : outcome (list TokenObject) :=
  if pos <? wrap64 (len line)
  then
    match fuel with
    | O => OutOfFuel
    | S fuel' =>
        rest ← sliceFrom line pos;
        '(id, sig) ← findToken fuel rest 1 [];
        sig ← (if bool_decide (id = 1) then findIdenToken sig else Done sig);
        let tokens :=
          tokens ++ [TokenKindM.New (tokenKindMap.Get tkm id) lineNo
                                    (wrap64 (pos + 1)) sig] in
        TokenizeLine_loop fuel' line lineNo (wrap64 (pos + len sig)) tokens
    end
  else Done tokens.

(** [TokenizeLine(line, lineNo)] (tokens.go:325-344). *)
Definition TokenizeLine (fuel : nat) (line : bytes) (lineNo : Z)
    : outcome (list TokenObject) :=
  TokenizeLine_loop fuel line lineNo 0 [].

End Tokenizing.

(** [TokenizeLines(lines)] (tokens.go:347-357): [lineId] is the index of
    the [range] loop. *)
Fixpoint TokenizeLines_loop (G : Globals) (fuel : nat) (lines : list bytes)
    (lineId : Z) (tokens : list TokenObject) : outcome (list TokenObject) :=
  match lines with
  | [] => Done tokens
  | line :: lines' =>
      let lineNo := wrap64 lineId in
      toks ← TokenizeLine G fuel line lineNo;
      TokenizeLines_loop G fuel lines' (lineId + 1) (tokens ++ toks)
  end.

Definition TokenizeLines (G : Globals) (fuel : nat) (lines : list bytes)
    : outcome (list TokenObject) :=
  TokenizeLines_loop G fuel lines 0 [].

(** [TokenizeFile(name)] (tokens.go:363-374).  The file is read through a
    [bufio.Scanner];
    [scanned] is the sequence of texts that [file.Text()] yields while
    [file.Scan()] holds. *)
Fixpoint TokenizeFile_loop (G : Globals) (fuel : nat) (scanned : list bytes)
    (lineNo : Z) (tokens : list TokenObject) : outcome (list TokenObject) :=
  match scanned with
  | [] => Done tokens
  | text :: scanned' =>
      let lineNo := wrap64 (lineNo + 1) in
      toks ← TokenizeLine G fuel text lineNo;
      TokenizeFile_loop G fuel scanned' lineNo (tokens ++ toks)
  end.

Definition TokenizeFile (G : Globals) (fuel : nat) (scanned : list bytes)
    : outcome (list TokenObject) :=
  TokenizeFile_loop G fuel scanned 0 [].

(** ** Loading *)

(** [strings.Index(s, substr)]: the offset of the first occurrence of
    [substr] in [s], or -1. *)
Fixpoint strIndex (s substr : bytes) : Z :=
  if hasPrefix s substr then 0
  else
    match s with
    | [] => -1
    | _ :: s' =>
        let i := strIndex s' substr in
        if i <? 0 then -1 else i + 1
    end.

(** [strings.TrimRight(s, " ")]: [s] without its trailing spaces. *)
Fixpoint trimRightSpaces (s : bytes) : bytes :=
  match s with
  | [] => []
  | c :: s' =>
      match trimRightSpaces s' with
      | [] => if bool_decide (c = " "%char) then [] else [c]
      | t => c :: t
      end
  end.

(** [strings.SplitN(s, " ", 2)]: [s] cut at its first space, or [s] alone
    when it has none. *)
Fixpoint splitAtSpace (s : bytes) : list bytes :=
  match s with
  | [] => [[]]
  | c :: s' =>
      if bool_decide (c = " "%char) then [[]; s']
      else
        match splitAtSpace s' with
        | [first] => [c :: first]
        | first :: rest => (c :: first) :: rest
        | [] => []
        end
  end.

(** [findCommentPos(s)] (tokens.go:469-471). *)
Definition findCommentPos (s : bytes) : Z := strIndex s (b "#:").

(** [justifyString(s, ind)] (tokens.go:480-489). *)
Definition justifyString (s : bytes) (ind : Z) : outcome bytes :=
  if negb (ind >=? 0) then Done s
  else
    temp ← sliceTo s ind;
    if bool_decide (temp = b "  ") then Done (b " ")
    else Done (trimRightSpaces temp).

(** The loop of [parseComment] (tokens.go:499-502); [n] bounds the number of
    iterations. *)
Fixpoint parseComment_loop (n : nat) (temp : bytes) (ind : Z) : outcome bytes :=
  if ind >=? 0
  then
    match n with
    | O => OutOfFuel
    | S n' =>
        let ind := findCommentPos temp in
        temp ← justifyString temp ind;
        parseComment_loop n' temp ind
    end
  else Done temp.

(** [parseComment(line)] (tokens.go:495-504).  Every iteration that finds a
    comment shortens the text, so [len(line) + 1] iterations are enough
    ([parseComment_returns]). *)
Definition parseComment (line : bytes) : outcome bytes :=
  parseComment_loop (S (length line)) line (findCommentPos line).

(** [parseLine(line)] (tokens.go:507-521); [SplitN] with limit 2 never
    returns more than two parts. *)
Definition parseLine (line : bytes) : outcome (bytes * bytes) :=
  match splitAtSpace line with
  | [name; seq] =>
      name ← parseComment name;
      seq ← parseComment seq;
      Done (name, seq)
  | [name] =>
      _ ← parseComment name;
      Done ([], [])
  | _ => Panic
  end.

(** [parseLine] over the lines of the tokens file. *)
Fixpoint parseLines (lines : list bytes) : outcome (list (bytes * bytes)) :=
  match lines with
  | [] => Done []
  | line :: lines' =>
      d ← parseLine line;
      ds ← parseLines lines';
      Done (d :: ds)
  end.

(** [loadTokens()] (tokens.go:524-553), run once by [init], after the tokens
    file has been read: [parsed] is the sequence of pairs that [parseLine]
    returned for its lines, in file order; a line whose name is empty is
    skipped. *)
Definition loadTokens (parsed : list (bytes * bytes)) : Globals :=
  let G := initGlobals in
  let G := Add G (b "WHTSPACE") (b " ") in
  let G := Add G (b "GENIDEN") (b "&IDEN") in
  let G := Add G (b "GENTYPE") (b "&TYPE") in
  let G := Add G (b "GENOBJ") (b "&OBJ") in
  let G := Add G (b "NEWLINE") ["010"%char] in
  let G := Add G (b "CRETURN") ["013"%char] in
  let G := Add G (b "TABLINE") ["009"%char] in
  fold_left
    (fun G d => if bool_decide (d.1 = []) then G else Add G d.1 d.2)
    parsed G.

(** [loadTokens()] from the lines that the scanner of the tokens file
    yields. *)
Definition loadTokensFrom (lines : list bytes) : outcome Globals :=
  parsed ← parseLines lines;
  Done (loadTokens parsed).

(** [maxSignatureLength()] of the specification: the running maximum kept
    by [newKind]. *)
Definition maxSignatureLength (G : Globals) : Z := tokenKindSignatureMaxSize G.

(** ** Registries used in the examples *)

(** The registry of an empty tokens file: the seven reserved kinds. *)
Definition reservedOnly : Globals := loadTokens [].

(** The registry of a tokens file with the single line [EQEQ ==]. *)
Definition withEqEq : Globals := loadTokens [(b "EQEQ", b "==")].

(** The registry of a tokens file with the lines [EQ =] and [EQEQ ==]. *)
Definition withEq : Globals :=
  loadTokens [(b "EQ", b "="); (b "EQEQ", b "==")].

(** The registry of a tokens file with the lines [EQ =], [EQEQ ==] and
    [EMPTY ] (a name followed by one space: [parseLine] returns the name
    with an empty sequence, see [parseLine_examples]). *)
Definition withEqAndEmpty : Globals :=
  loadTokens [(b "EQ", b "="); (b "EQEQ", b "=="); (b "EMPTY", [])].

(** The registry of a tokens file with the lines [EQ =], [EQEQ ==] and
    [SAME ==]: two kinds share the signature ["=="]. *)
Definition withTwoEqEq : Globals :=
  loadTokens [(b "EQ", b "="); (b "EQEQ", b "=="); (b "SAME", b "==")].

(** ** The registry built by the loader *)

(** The kinds [loadTokens] registers before it reads the tokens file. *)
Definition reservedKinds : list (bytes * bytes) :=
  [ (b "WHTSPACE", b " ");
    (b "GENIDEN", b "&IDEN");
    (b "GENTYPE", b "&TYPE");
    (b "GENOBJ", b "&OBJ");
    (b "NEWLINE", ["010"%char]);
    (b "CRETURN", ["013"%char]);
    (b "TABLINE", ["009"%char]) ].

(** The lines of the tokens file that [loadTokens] registers. *)
Definition declared (parsed : list (bytes * bytes)) : list (bytes * bytes) :=
  List.filter (fun d => negb (bool_decide (d.1 = []))) parsed.

(** Every registration of [loadTokens], in order. *)
Definition registrations (parsed : list (bytes * bytes)) : list (bytes * bytes) :=
  reservedKinds ++ declared parsed.

Definition addAll (G : Globals) (decls : list (bytes * bytes)) : Globals :=
  fold_left (fun G d => Add G d.1 d.2) decls G.

(** The kind that the registration number [i] creates when ids do not wrap. *)
Definition kindOf (i : Z) (d : bytes * bytes) : TokenKind :=
  mkTokenKind i d.1 d.2.

(** ** Lookup by id *)

(** The errors of the specification's registry. *)
Inductive RegistryError : Type := UnknownKind.

(** [get(id)] as the specification words it: it fails with [UnknownKind] when
    [id] was never registered. *)
Definition get_spec (tkm : gmap Z TokenKind) (id : Z)
    : RegistryError + TokenKind :=
  match tkm !! id with
  | Some kind => inr kind
  | None => inl UnknownKind
  end.

(** ** Lines and files *)

(** The token with another line number. *)
Definition withLineNo (lineNo : Z) (t : TokenObject) : TokenObject :=
  mkTokenObject (Kind t) lineNo (Position t) (Symbol t).

(** The token with its line number one higher, every other field kept. *)
Definition nextLine (t : TokenObject) : TokenObject :=
  withLineNo (LineNo t + 1) t.

Definition relabel (lineNo : Z) (toks : list TokenObject) : list TokenObject :=
  withLineNo lineNo <$> toks.

Definition nextLines (toks : list TokenObject) : list TokenObject :=
  nextLine <$> toks.

(** The concatenation of [TokenizeLine] over [lines], the first line
    numbered [first] and each next line one higher. *)
Fixpoint concatLines (G : Globals) (fuel : nat) (lines : list bytes)
    (first : Z) : outcome (list TokenObject) :=
  match lines with
  | [] => Done []
  | line :: lines' =>
      toks ← TokenizeLine G fuel line first;
      rest ← concatLines G fuel lines' (first + 1);
      Done (toks ++ rest)
  end.

(** The kind id, position and text of each token. *)
Definition summary (toks : list TokenObject) : list (Z * Z * bytes) :=
  (fun t => (Id (Kind t), Position t, Symbol t)) <$> toks.

(** The texts of a token sequence, concatenated in order. *)
Definition texts (toks : list TokenObject) : bytes :=
  concat (Symbol <$> toks).

(** ** Running maxima *)

(** The largest length in a list of strings, 0 for the empty list. *)
Definition maxLen (l : list bytes) : Z :=
  foldr (fun s m => Z.max (len s) m) 0 l.

(** ** Rendering *)

(** [%d] of an unsigned integer. *)
Definition decimal (z : Z) : bytes :=
  list_ascii_of_string (NilZero.string_of_uint (N.to_uint (Z.to_N z))).

(** [tk.asString()], which is also [tk.String()] and [tk.GoString()]
    (tokens.go:48-52): [fmt.Sprintf("Token[%s]", tk.Name)]. *)
Definition TokenKind_asString (tk : TokenKind) : bytes :=
  b "Token[" ++ Name tk ++ b "]".

(** One line of [RenderTokenRepr] (tokens.go:391):
    [fmt.Sprintf("[%d]\t%s\t'%s'\n", t.Id, t, t.Signature)]; [%s] of a
    [TokenKind] is its [String()]. *)
Definition renderLine (t : TokenKind) : bytes :=
  b "[" ++ decimal (Id t) ++ b "]" ++ ["009"%char]
    ++ TokenKind_asString t ++ ["009"%char]
    ++ b "'" ++ Signature t ++ b "'" ++ ["010"%char].

(** [RenderTokenRepr()] (tokens.go:384-394): [id] counts from 0 while it is
    below [tokenKindId], and each pass appends the line of [tokenKinds[id]]. *)
Definition RenderTokenRepr (G : Globals) : bytes :=
  foldl
    (fun render id =>
       render ++ renderLine (tokenKindMap.index (tokenKinds G) id))
    [] (seqZ 0 (tokenKindId G)).

(** ** Lines of words and isolated characters *)

(** A character that occurs in no registered signature. *)
Definition alien (tkm : gmap Z TokenKind) (c : ascii) : Prop :=
  forall id kind, tkm !! id = Some kind -> ~ In c (Signature kind).

(** A word: a non-empty run of such characters. *)
Definition word (tkm : gmap Z TokenKind) (w : bytes) : Prop :=
  w <> [] /\ Forall (alien tkm) w.

(** A character that is the whole signature of the kind under [id] and
    occurs in no other registered signature. *)
Definition isolated (tkm : gmap Z TokenKind) (c : ascii) (id : Z) : Prop :=
  (exists kind, tkm !! id = Some kind /\ Signature kind = [c]) /\
  (forall id' kind',
      tkm !! id' = Some kind' -> In c (Signature kind') -> id' = id).

(** A piece of a line, with the id expected for it: an isolated character
    with the id of its kind, or a word with the generic id 1. *)
Definition piece (tkm : gmap Z TokenKind) (p : bytes * Z) : Prop :=
  (exists c, p.1 = [c] /\ isolated tkm c p.2) \/ (word tkm p.1 /\ p.2 = 1).

(** No two words are neighbours: words are maximal runs. *)
Fixpoint separated (tkm : gmap Z TokenKind) (pieces : list (bytes * Z))
    : Prop :=
  match pieces with
  | p :: pieces' =>
      match pieces' with
      | q :: _ => ~ (word tkm p.1 /\ word tkm q.1) /\ separated tkm pieces'
      | [] => True
      end
  | [] => True
  end.

(** One token per piece, of the kind under the id of the piece, with the
    text of the piece, at the offset of the piece plus one; [pos] is the
    offset of the first piece. *)
Fixpoint pieceTokens (tkm : gmap Z TokenKind) (lineNo pos : Z)
    (pieces : list (bytes * Z)) : list TokenObject :=
  match pieces with
  | [] => []
  | p :: pieces' =>
      TokenKindM.New (tokenKindMap.Get tkm p.2) lineNo (pos + 1) p.1
      :: pieceTokens tkm lineNo (pos + len p.1) pieces'
  end.

(** * Properties *)

(** ** Recursion budget

    A result other than [OutOfFuel] does not depend on the budget: a larger
    budget gives the same result. *)

Lemma findToken_fuel_mono G (f f' : nat) line step ids :
  (f <= f')%nat ->
  findToken G f line step ids <> OutOfFuel ->
  findToken G f' line step ids = findToken G f line step ids.
Proof.
  revert f' line step ids.
  induction f as [|f IH]; intros f' line step ids Hle Hne; [done|].
  destruct f' as [|f']; [lia|].
  cbn [findToken] in *.
  destruct (calcView line 0 step) as [view| |]; cbn in *; try done.
  destruct (if bool_decide (len ids = 0) then _ else _) as [|i [|j rest]];
    try done.
  - destruct (tokenKindMap.FindEx _ _ _); [|done].
    apply IH; [lia|done].
  - destruct (calcView line step 1) as [ahead| |]; cbn in *; try done.
    destruct (isToken G ahead) as [tok| |]; cbn in *; try done.
    destruct (negb tok); apply IH; try lia; done.
Qed.

Lemma TokenizeLine_loop_S G (f : nat) line lineNo pos tokens :
  TokenizeLine_loop G (S f) line lineNo pos tokens =
  if pos <? wrap64 (len line)
  then
    rest ← sliceFrom line pos;
    '(id, sig) ← findToken G (S f) rest 1 [];
    sig ← (if bool_decide (id = 1) then findIdenToken G sig else Done sig);
    TokenizeLine_loop G f line lineNo (wrap64 (pos + len sig))
      (tokens ++ [TokenKindM.New (tokenKindMap.Get (tokenKinds G) id) lineNo
                                 (wrap64 (pos + 1)) sig])
  else Done tokens.
Proof. reflexivity. Qed.

Lemma TokenizeLine_loop_O G line lineNo pos tokens :
  TokenizeLine_loop G O line lineNo pos tokens =
  if pos <? wrap64 (len line) then OutOfFuel else Done tokens.
Proof. reflexivity. Qed.

Lemma TokenizeLine_loop_fuel_mono G (f f' : nat) line lineNo pos tokens :
  (f <= f')%nat ->
  TokenizeLine_loop G f line lineNo pos tokens <> OutOfFuel ->
  TokenizeLine_loop G f' line lineNo pos tokens
  = TokenizeLine_loop G f line lineNo pos tokens.
Proof.
  revert f' pos tokens.
  induction f as [|f IH]; intros f' pos tokens Hle Hne.
  - rewrite TokenizeLine_loop_O in *.
    destruct f'; [apply TokenizeLine_loop_O|].
    rewrite TokenizeLine_loop_S.
    destruct (pos <? wrap64 (len line)); [congruence|reflexivity].
  - destruct f' as [|f']; [lia|].
    rewrite TokenizeLine_loop_S in Hne. rewrite !TokenizeLine_loop_S.
    destruct (pos <? wrap64 (len line)); [|reflexivity].
    destruct (sliceFrom line pos) as [rest| |]; [|reflexivity|reflexivity].
    change (Done rest ≫= ?k) with (k rest) in *. cbv beta in *.
    rewrite (findToken_fuel_mono G (S f) (S f')); [|lia|].
    2: { intros Heq. rewrite Heq in Hne. apply Hne. reflexivity. }
    destruct (findToken G (S f) rest 1 []) as [[id sig]| |];
      [|reflexivity|reflexivity].
    change (Done (id, sig) ≫= ?k) with (k (id, sig)) in *. cbv beta iota in *.
    destruct (if bool_decide (id = 1) then _ else _) as [sig'| |];
      [|reflexivity|reflexivity].
    change (Done sig' ≫= ?k) with (k sig') in *. cbv beta in *.
    apply IH; [lia|exact Hne].
Qed.

Lemma TokenizeLine_fuel_mono G (f f' : nat) line lineNo :
  (f <= f')%nat ->
  TokenizeLine G f line lineNo <> OutOfFuel ->
  TokenizeLine G f' line lineNo = TokenizeLine G f line lineNo.
Proof.
  unfold TokenizeLine. intros Hle Hne.
  exact (TokenizeLine_loop_fuel_mono G f f' line lineNo 0 [] Hle Hne).
Qed.

Lemma TokenizeLine_enough G (k : nat) line lineNo r :
  TokenizeLine G k line lineNo = r -> r <> OutOfFuel ->
  forall n : nat, TokenizeLine G (k + n) line lineNo = r.
Proof.
  intros Hk Hr n. rewrite <- Hk.
  apply TokenizeLine_fuel_mono; [lia|congruence].
Qed.

Lemma findToken_enough G (k : nat) line step ids r :
  findToken G k line step ids = r -> r <> OutOfFuel ->
  forall n : nat, findToken G (k + n) line step ids = r.
Proof.
  intros Hk Hr n. rewrite <- Hk.
  apply findToken_fuel_mono; [lia|congruence].
Qed.

(** ** Unfolding equations, slices and views *)

Lemma findToken_S G (fuel : nat) line step ids :
  findToken G (S fuel) line step ids =
  view ← calcView line 0 step;
  match (if bool_decide (len ids = 0)
         then tokenKindMap.Find (tokenKinds G) view ids else ids) with
  | [] => Done (1, line)
  | [i] =>
      match tokenKindMap.FindEx (tokenKinds G) view [i] with
      | [] => findToken G fuel line (wrap64 (step + 1)) []
      | id0 :: _ => Done (id0, view)
      end
  | i :: j :: rest =>
      ahead ← calcView line step 1;
      tok ← isToken G ahead;
      if negb tok
      then
        let ids' := tokenKindMap.FindEx (tokenKinds G) view (i :: j :: rest) in
        findToken G fuel line step
          (if bool_decide (len ids' = 0) then ids' ++ [1] else ids')
      else findToken G fuel line (wrap64 (step + 1)) (i :: j :: rest)
  end.
Proof.
  cbn [findToken].
  destruct (calcView line 0 step) as [view| |]; [|reflexivity|reflexivity].
  cbn [mbind outcome_bind].
  destruct (if bool_decide (len ids = 0) then _ else _) as [|i [|j rest]];
    try reflexivity.
  destruct (tokenKindMap.FindEx (tokenKinds G) view [i]); reflexivity.
Qed.

Lemma len_nonneg {A} (s : list A) : 0 <= len s.
Proof. unfold len. lia. Qed.

Lemma slice_prefix line hi :
  0 <= hi <= len line -> slice line 0 hi = Done (take (Z.to_nat hi) line).
Proof.
  intros H. unfold slice.
  replace ((0 <=? 0) && (0 <=? hi) && (hi <=? len line)) with true
    by (symmetry; rewrite !andb_true_iff, !Z.leb_le; lia).
  by rewrite Z.sub_0_r.
Qed.

Lemma slice_Done s lo hi v :
  slice s lo hi = Done v ->
  0 <= lo <= hi /\ hi <= len s /\
  v = take (Z.to_nat (hi - lo)) (drop (Z.to_nat lo) s).
Proof.
  unfold slice.
  destruct ((0 <=? lo) && (lo <=? hi) && (hi <=? len s)) eqn:E; [|done].
  rewrite !andb_true_iff, !Z.leb_le in E. intros [= <-].
  split; [lia|split; [lia|reflexivity]].
Qed.

Lemma slice_in_range s lo hi :
  0 <= lo <= hi -> hi <= len s -> exists v, slice s lo hi = Done v.
Proof.
  intros H1 H2. unfold slice.
  replace ((0 <=? lo) && (lo <=? hi) && (hi <=? len s)) with true
    by (symmetry; rewrite !andb_true_iff, !Z.leb_le; lia).
  eauto.
Qed.

(** [calcView(line, 0, step)] is the prefix of [line] of length [step],
    the whole line when [step] is past its end. *)
Lemma calcView_0 line step :
  0 <= step < 2 ^ 63 ->
  calcView line 0 step = Done (take (Z.to_nat step) line).
Proof.
  intros H. unfold calcView, wrap64, toInt, sliceFrom. rewrite Z.add_0_l.
  rewrite Z.mod_small by lia.
  replace (step <? 2 ^ 63) with true by (symmetry; apply Z.ltb_lt; lia).
  pose proof (len_nonneg line).
  destruct (Z.gtb_spec step (len line)).
  - rewrite slice_prefix by lia.
    rewrite !take_ge; unfold len in *; [done|lia|lia].
  - by rewrite slice_prefix by lia.
Qed.

(** A view taken from offset 0 is a prefix of the line. *)
Lemma calcView_0_prefix line step view :
  calcView line 0 step = Done view -> exists n : nat, view = take n line.
Proof.
  unfold calcView, sliceFrom.
  destruct (_ >? _); intros (_ & _ & ->)%slice_Done; eauto.
Qed.

Lemma calcViewR_last line :
  len line < 2 ^ 64 -> exists view, calcViewR line (len line) 1 = Done view.
Proof.
  intros Hlen. pose proof (len_nonneg line) as Hnn.
  unfold calcViewR, wrap64.
  destruct (Z.gtb_spec ((len line - 1) mod 2 ^ 64) 0) as [Hgt|Hle].
  - apply slice_in_range; lia.
  - destruct (decide (len line = 0)) as [H0|H0].
    + rewrite H0 in Hle.
      change ((0 - 1) mod 2 ^ 64) with (2 ^ 64 - 1) in Hle. lia.
    + rewrite Z.mod_small by lia. apply slice_in_range; lia.
Qed.

Lemma calcStep_len G line : calcStep G line = wrap64 (len line).
Proof. unfold calcStep. f_equal. lia. Qed.

Lemma take_prefix_length {A} (n : nat) (l : list A) :
  take n l = take (length (take n l)) l.
Proof.
  rewrite length_take. destruct (le_lt_dec n (length l)).
  - f_equal. lia.
  - rewrite !take_ge; [done|lia|lia].
Qed.

Lemma take_take_prefix {A} (n m : nat) (l : list A) :
  take n (take m l) = take (length (take n (take m l))) l.
Proof.
  rewrite take_take, length_take.
  destruct (le_lt_dec (n `min` m) (length l)).
  - f_equal. lia.
  - rewrite !take_ge; [done|lia|lia].
Qed.

(** ** Registry queries *)

Lemma Ids_NoDup (tkm : gmap Z TokenKind) : NoDup (tokenKindMap.Ids tkm).
Proof. apply NoDup_fst_map_to_list. Qed.

Lemma In_Ids (tkm : gmap Z TokenKind) (i : Z) :
  In i (tokenKindMap.Ids tkm) <-> is_Some (tkm !! i).
Proof.
  unfold tokenKindMap.Ids. rewrite <- list_elem_of_In, list_elem_of_fmap.
  split.
  - intros [[i' kind] [-> H%elem_of_map_to_list]]. eauto.
  - intros [kind H]. exists (i, kind). split; [done|].
    by apply elem_of_map_to_list.
Qed.

Lemma Find_all tkm sig :
  tokenKindMap.Find tkm sig []
  = List.filter
      (fun id => tokenSignature.Contains
                   (Signature (tokenKindMap.index tkm id)) sig)
      (tokenKindMap.Ids tkm).
Proof. reflexivity. Qed.

Lemma FindEx_among tkm sig i ids :
  tokenKindMap.FindEx tkm sig (i :: ids)
  = List.filter
      (fun id => tokenSignature.Compare
                   (Signature (tokenKindMap.index tkm id)) sig)
      (i :: ids).
Proof.
  unfold tokenKindMap.FindEx.
  replace (0 <? len (i :: ids)) with true; [done|].
  symmetry. apply Z.ltb_lt. unfold len. cbn [length]. lia.
Qed.

Lemma FindEx_exact tkm sig ids id :
  In id (tokenKindMap.FindEx tkm sig ids) ->
  Signature (tokenKindMap.index tkm id) = sig.
Proof.
  unfold tokenKindMap.FindEx, tokenSignature.Compare.
  intros [_ H]%filter_In. by apply bool_decide_eq_true in H.
Qed.

Lemma hasPrefix_nil s : hasPrefix s [] = true.
Proof. by destruct s. Qed.

Lemma strContains_nil s : strContains s [] = true.
Proof. destruct s; cbn; by rewrite ?hasPrefix_nil. Qed.

Lemma filter_all {A} (f : A -> bool) (l : list A) :
  (forall x, In x l -> f x = true) -> List.filter f l = l.
Proof.
  induction l as [|x l IH]; intros H; [done|]. cbn.
  rewrite (H x) by (by left). f_equal. apply IH. intros y Hy. apply H.
  by right.
Qed.

Lemma filter_none {A} (f : A -> bool) (l : list A) :
  (forall x, In x l -> f x = false) -> List.filter f l = [].
Proof.
  induction l as [|x l IH]; intros H; [done|]. cbn.
  rewrite (H x) by (by left). apply IH. intros y Hy. apply H. by right.
Qed.

Lemma filter_only {A} (f : A -> bool) (l : list A) (k : A) :
  NoDup l -> In k l -> f k = true ->
  (forall x, In x l -> f x = true -> x = k) ->
  List.filter f l = [k].
Proof.
  induction 1 as [|x l Hx Hnd IH]; intros Hk Hfk Honly; [done|].
  cbn. destruct Hk as [->|Hk].
  - rewrite Hfk. f_equal. apply filter_none. intros y Hy.
    destruct (f y) eqn:Hfy; [|done].
    assert (y = k) as -> by (apply Honly; [by right|done]).
    by apply list_elem_of_In in Hy.
  - destruct (f x) eqn:Hfx.
    + assert (x = k) as -> by (apply Honly; [by left|done]).
      by apply list_elem_of_In in Hk.
    + apply IH; [done|done|]. intros y Hy. apply Honly. by right.
Qed.

(** The empty text occurs in every signature: the lookup of the empty text
    returns every id. *)
Lemma Find_empty_text tkm :
  tokenKindMap.Find tkm [] [] = tokenKindMap.Ids tkm.
Proof.
  rewrite Find_all. apply filter_all. intros i _.
  apply strContains_nil.
Qed.

(** A property of every registered kind, checked over the entries. *)
Lemma forall_registered (tkm : gmap Z TokenKind) (P : Z -> TokenKind -> bool) :
  forallb (fun e => P e.1 e.2) (map_to_list tkm) = true ->
  forall i ki, tkm !! i = Some ki -> P i ki = true.
Proof.
  intros H i ki Hi. apply elem_of_map_to_list in Hi.
  rewrite forallb_forall in H. apply (H (i, ki)). by apply list_elem_of_In.
Qed.

(** ** The look-ahead check *)

(** When some signature contains the text, and the text is not a single
    space, the loop of [isToken] is not entered: [isToken] answers whether
    the text is exactly a registered signature. *)
Lemma isToken_no_loop G line :
  len line < 2 ^ 64 ->
  tokenKindMap.Find (tokenKinds G) line [] <> [] ->
  line <> b " " ->
  isToken G line
  = Done (0 <? len (tokenKindMap.FindEx (tokenKinds G) line
                      (tokenKindMap.Find (tokenKinds G) line []))).
Proof.
  intros Hlen Hfind Hsp. unfold isToken. cbv zeta. rewrite calcStep_len.
  pose proof (len_nonneg line) as Hnn.
  replace (wrap64 (len line)) with (len line)
    by (unfold wrap64; by rewrite Z.mod_small by lia).
  assert (Hview : exists view,
             calcViewR line (len line) 1 = Done view /\ view <> b " ").
  { unfold calcViewR, wrap64.
    destruct (Z.gtb_spec ((len line - 1) mod 2 ^ 64) 0) as [Hgt|Hle].
    - exists []. split; [by rewrite slice_prefix by lia|discriminate].
    - assert (len line = 1) as Hone.
      { destruct (decide (len line = 0)) as [H0|H0].
        - rewrite H0 in Hle.
          change ((0 - 1) mod 2 ^ 64) with (2 ^ 64 - 1) in Hle. lia.
        - rewrite Z.mod_small in Hle by lia. lia. }
      exists line. split; [|done].
      replace ((len line - 1) mod 2 ^ 64) with 0 by (by rewrite Hone).
      rewrite slice_prefix by lia.
      rewrite take_ge; [done|]. unfold len in *. lia. }
  destruct Hview as (view & -> & Hview). cbn [mbind outcome_bind].
  destruct (tokenKindMap.Find (tokenKinds G) line []) as [|i found] eqn:Hf;
    [done|].
  cbn [isToken_loop].
  rewrite bool_decide_eq_false_2
    by (unfold len; cbn [length]; lia).
  rewrite (bool_decide_eq_false_2 (view = b " ")) by done.
  reflexivity.
Qed.

Lemma isToken_loop_returns G (n : nat) line step sig view matches :
  len line < 2 ^ 64 ->
  1 <= step <= len line -> step <= Z.of_nat n ->
  exists r, isToken_loop G n line step sig view matches = Done r.
Proof.
  intros Hlen. revert step sig view matches.
  induction n as [|n IH]; intros step sig view matches Hstep Hn; [lia|].
  cbn [isToken_loop].
  destruct (negb _); [eauto|].
  unfold wrap64. rewrite !(Z.mod_small (step - 1)) by lia.
  destruct (bool_decide (step - 1 = 0)) eqn:Hone; [eauto|].
  apply bool_decide_eq_false in Hone.
  destruct (slice_in_range line 0 (step - 1)) as [sig' Hsig]; [lia|lia|].
  unfold sliceTo. rewrite Hsig. cbn [mbind outcome_bind].
  rewrite (Z.mod_small (step - 1 - 1)) by lia.
  destruct (slice_in_range line (step - 1 - 1) (step - 1)) as [view' Hview];
    [lia|lia|].
  rewrite Hview. cbn [mbind outcome_bind].
  apply IH; lia.
Qed.

(** [isToken] always answers, on every text when the registry is not empty
    and on every non-empty text otherwise. *)
Lemma isToken_returns G line :
  len line < 2 ^ 64 ->
  line <> [] \/ tokenKindMap.Ids (tokenKinds G) <> [] ->
  exists tok, isToken G line = Done tok.
Proof.
  intros Hlen Hne. pose proof (len_nonneg line) as Hnn.
  unfold isToken. cbv zeta. rewrite calcStep_len.
  replace (wrap64 (len line)) with (len line)
    by (unfold wrap64; by rewrite Z.mod_small by lia).
  destruct (calcViewR_last line Hlen) as [view Hview].
  rewrite Hview. cbn [mbind outcome_bind].
  assert (exists r,
             isToken_loop G (S (length line)) line (len line) line view
               (tokenKindMap.Find (tokenKinds G) line []) = Done r)
    as [[sig matches] ->].
  { destruct line as [|c line].
    - destruct Hne as [Hne|Hne]; [done|].
      rewrite Find_empty_text. cbn [isToken_loop].
      assert (view = []) as ->.
      { revert Hview. unfold calcViewR. cbn. by intros [= <-]. }
      destruct (tokenKindMap.Ids (tokenKinds G)); [done|]. cbn. eauto.
    - apply isToken_loop_returns; [done| |];
        unfold len in *; cbn [length] in *; lia. }
  cbn [mbind outcome_bind]. eauto.
Qed.

(** ** The engine at work *)

(** The reserved kinds, as an empty tokens file leaves them. *)
Example reservedOnly_ids :
  (fun k => (Id k, Signature k)) <$>
    (tokenKindMap.Get (tokenKinds reservedOnly) <$> [0; 1; 2; 3; 4; 5; 6])
  = [(0, b " "); (1, b "&IDEN"); (2, b "&TYPE"); (3, b "&OBJ");
     (4, ["010"%char]); (5, ["013"%char]); (6, ["009"%char])].
Proof. vm_compute. reflexivity. Qed.

(** With the tokens file [EQ =], [EQEQ ==] the line ["=="] is one token of
    the ["=="] kind. *)
Example maximal_munch_plain (n : nat) :
  TokenizeLine withEq (3 + n) (b "==") 0
  = Done [mkTokenObject (mkTokenKind 8 (b "EQEQ") (b "==")) 0 1 (b "==")].
Proof. apply TokenizeLine_enough; [vm_compute; reflexivity|discriminate]. Qed.

(** With the tokens file [EQEQ ==] the line ["abc=="] is the generic token
    ["abc"] followed by one ["=="] token. *)
Example generic_run_boundary_example (n : nat) :
  TokenizeLine withEqEq (3 + n) (b "abc==") 0
  = Done [mkTokenObject (mkTokenKind 1 (b "GENIDEN") (b "&IDEN")) 0 1 (b "abc");
          mkTokenObject (mkTokenKind 7 (b "EQEQ") (b "==")) 0 4 (b "==")].
Proof. apply TokenizeLine_enough; [vm_compute; reflexivity|discriminate]. Qed.

(** With the tokens file [EQ =], [EQEQ ==] the line ["a == b"] comes out with
    the two characters of ["=="] as two generic tokens: at [step] 2 the
    look-ahead is a space, which is a token, so the engine extends the view
    over the space and finds no signature for it. *)
Example spaced_operator_example (n : nat) :
  summary <$> TokenizeLine withEq (12 + n) (b "a == b") 0
  = Done [(1, 1, b "a"); (0, 2, b " "); (1, 3, b "="); (1, 4, b "=");
          (0, 5, b " "); (1, 6, b "b")].
Proof.
  rewrite (TokenizeLine_enough withEq 12 (b "a == b") 0
             (TokenizeLine withEq 12 (b "a == b") 0));
    [vm_compute; reflexivity|reflexivity|vm_compute; discriminate].
Qed.

(** ** The tokens file *)

Lemma hasPrefix_length s p :
  hasPrefix s p = true -> (length p <= length s)%nat.
Proof.
  revert s. induction p as [|c p IH]; intros [|d s] H; cbn in *;
    [lia|lia|done|].
  apply andb_true_iff in H as [_ H]. apply IH in H. lia.
Qed.

Lemma strIndex_bound s p :
  0 <= strIndex s p -> strIndex s p + len p <= len s.
Proof.
  unfold len. induction s as [|c s IH]; cbn [strIndex].
  - destruct (hasPrefix [] p) eqn:Hp; [|lia].
    apply hasPrefix_length in Hp. cbn in *. lia.
  - destruct (hasPrefix (c :: s) p) eqn:Hp.
    + apply hasPrefix_length in Hp. lia.
    + destruct (Z.ltb_spec (strIndex s p) 0); [lia|].
      cbn [length]. lia.
Qed.

Lemma trimRightSpaces_length s :
  (length (trimRightSpaces s) <= length s)%nat.
Proof.
  induction s as [|c s IH]; cbn [trimRightSpaces]; [done|].
  destruct (trimRightSpaces s) as [|d t].
  - destruct (bool_decide (c = " "%char)); cbn; lia.
  - cbn [length] in *. lia.
Qed.

(** With a comment found at [ind], [justifyString] returns, and returns a
    shorter text. *)
Lemma justifyString_shorter s :
  0 <= findCommentPos s ->
  exists t, justifyString s (findCommentPos s) = Done t /\
            (length t < length s)%nat.
Proof.
  intros Hind. pose proof (strIndex_bound s (b "#:") Hind) as Hb.
  fold (findCommentPos s) in Hb. change (len (b "#:")) with 2 in Hb.
  unfold justifyString.
  replace (findCommentPos s >=? 0) with true
    by (symmetry; apply Z.geb_le; lia).
  cbn [negb]. unfold sliceTo. rewrite slice_prefix by lia.
  cbn [mbind outcome_bind]. unfold len in Hb.
  destruct (bool_decide _).
  - eexists. split; [reflexivity|]. cbn. lia.
  - eexists. split; [reflexivity|].
    pose proof (trimRightSpaces_length
                  (take (Z.to_nat (findCommentPos s)) s)) as Ht.
    rewrite length_take in Ht. lia.
Qed.

Lemma parseComment_loop_returns (n : nat) temp ind :
  (length temp < n)%nat -> exists t, parseComment_loop n temp ind = Done t.
Proof.
  revert temp ind. induction n as [|n IH]; intros temp ind Hn; [lia|].
  cbn [parseComment_loop]. destruct (ind >=? 0); [|eauto].
  destruct (Z.le_gt_cases 0 (findCommentPos temp)) as [Hpos|Hneg].
  - destruct (justifyString_shorter temp Hpos) as (t & -> & Ht).
    cbn [mbind outcome_bind]. apply IH. lia.
  - unfold justifyString.
    assert (Hf : (findCommentPos temp >=? 0) = false)
      by (destruct (Z.geb_spec (findCommentPos temp) 0); [lia|done]).
    rewrite Hf. cbn [negb mbind outcome_bind].
    destruct n; cbn [parseComment_loop]; rewrite Hf; eauto.
Qed.

(** [parseComment] and [parseLine] always return. *)
Lemma parseComment_returns line : exists t, parseComment line = Done t.
Proof. apply parseComment_loop_returns. lia. Qed.

Lemma splitAtSpace_parts line :
  (exists name, splitAtSpace line = [name]) \/
  (exists name seq, splitAtSpace line = [name; seq]).
Proof.
  induction line as [|c line IH]; cbn [splitAtSpace]; [eauto|].
  destruct (bool_decide (c = " "%char)); [eauto|].
  destruct IH as [[name ->]|(name & seq & ->)]; eauto.
Qed.

Lemma parseLine_returns line : exists d, parseLine line = Done d.
Proof.
  unfold parseLine.
  destruct (splitAtSpace_parts line) as [[name ->]|(name & seq & ->)].
  - destruct (parseComment_returns name) as [t ->]. cbn. eauto.
  - destruct (parseComment_returns name) as [t ->].
    destruct (parseComment_returns seq) as [u ->]. cbn. eauto.
Qed.

(** Loading never fails: every tokens file gives the registry of the pairs
    parsed from its lines. *)
Lemma loadTokensFrom_returns lines :
  exists parsed, parseLines lines = Done parsed /\
                 loadTokensFrom lines = Done (loadTokens parsed).
Proof.
  unfold loadTokensFrom.
  assert (exists parsed, parseLines lines = Done parsed) as [parsed Hp].
  { induction lines as [|line lines [ds IH]]; cbn [parseLines]; [eauto|].
    destruct (parseLine_returns line) as [d ->]. rewrite IH. cbn. eauto. }
  exists parsed. by rewrite Hp.
Qed.

Example parseLine_examples :
  parseLine (b "EQ =") = Done (b "EQ", b "=") /\
  parseLine (b "EQEQ ==   #: equality") = Done (b "EQEQ", b "==") /\
  parseLine (b "EMPTY ") = Done (b "EMPTY", []) /\
  parseLine (b "NOTE #: no sequence") = Done (b "NOTE", []) /\
  parseLine (b "#: only a comment") = Done ([], b "only a comment") /\
  parseLine (b "WORD") = Done ([], []).
Proof. repeat split; vm_compute; reflexivity. Qed.

(** The registries of the examples, from the lines of their tokens files. *)
Example registries_from_files :
  loadTokensFrom [] = Done reservedOnly /\
  loadTokensFrom [b "EQEQ =="] = Done withEqEq /\
  loadTokensFrom [b "EQ ="; b "EQEQ =="] = Done withEq /\
  loadTokensFrom [b "EQ ="; b "EQEQ =="; b "EMPTY "] = Done withEqAndEmpty /\
  loadTokensFrom [b "EQ ="; b "EQEQ =="; b "SAME =="] = Done withTwoEqEq.
Proof. repeat split; vm_compute; reflexivity. Qed.

(** ** The registry built by the loader *)

Lemma loadTokens_addAll parsed :
  loadTokens parsed = addAll initGlobals (registrations parsed).
Proof.
  unfold loadTokens, registrations, addAll. rewrite fold_left_app.
  change (fold_left (fun G d => Add G d.1 d.2) reservedKinds initGlobals)
    with (Add (Add (Add (Add (Add (Add (Add initGlobals
           (b "WHTSPACE") (b " ")) (b "GENIDEN") (b "&IDEN"))
           (b "GENTYPE") (b "&TYPE")) (b "GENOBJ") (b "&OBJ"))
           (b "NEWLINE") ["010"%char]) (b "CRETURN") ["013"%char])
           (b "TABLINE") ["009"%char]).
  generalize (Add (Add (Add (Add (Add (Add (Add initGlobals
           (b "WHTSPACE") (b " ")) (b "GENIDEN") (b "&IDEN"))
           (b "GENTYPE") (b "&TYPE")) (b "GENOBJ") (b "&OBJ"))
           (b "NEWLINE") ["010"%char]) (b "CRETURN") ["013"%char])
           (b "TABLINE") ["009"%char]).
  induction parsed as [|d parsed IH]; intros G; [reflexivity|].
  destruct d as [[|c name] seq]; exact (IH _).
Qed.

Lemma addAll_snoc G decls d :
  addAll G (decls ++ [d]) = Add (addAll G decls) d.1 d.2.
Proof. unfold addAll. by rewrite fold_left_app. Qed.

Lemma Add_fields G name sig :
  tokenKindId (Add G name sig) = wrap16 (tokenKindId G + 1) /\
  tokenKinds (Add G name sig)
  = <[tokenKindId G := mkTokenKind (tokenKindId G) name sig]> (tokenKinds G).
Proof. split; reflexivity. Qed.

(** Registrations from the initial state, as long as the 16-bit id does not
    wrap: the next id is the number of registrations and the map holds the
    [i]-th registration under id [i]. *)
Lemma addAll_init decls :
  len decls <= 2 ^ 16 ->
  tokenKindId (addAll initGlobals decls) = wrap16 (len decls) /\
  forall i : Z,
    tokenKinds (addAll initGlobals decls) !! i
    = if decide (0 <= i) then kindOf i <$> decls !! Z.to_nat i else None.
Proof.
  induction decls as [|d decls IH] using rev_ind; intros Hlen.
  - split; [reflexivity|]. intros i. cbn. rewrite lookup_empty.
    by destruct (decide (0 <= i)).
  - unfold len in *. rewrite length_app in *. cbn [length] in *.
    destruct IH as [IHid IHmap]; [lia|].
    rewrite addAll_snoc.
    destruct (Add_fields (addAll initGlobals decls) d.1 d.2) as [-> ->].
    rewrite IHid. unfold wrap16.
    rewrite (Z.mod_small (Z.of_nat (length decls))) by lia.
    split; [f_equal; lia|].
    intros i. rewrite lookup_insert. destruct (decide (_ = i)) as [<-|Hne].
    + rewrite decide_True by lia. rewrite Nat2Z.id.
      by rewrite lookup_app_r, Nat.sub_diag by lia.
    + rewrite IHmap. destruct (decide (0 <= i)); [|done].
      destruct (decide (i < Z.of_nat (length decls))).
      * by rewrite lookup_app_l by lia.
      * rewrite !lookup_ge_None_2; [done| |lia].
        rewrite length_app. cbn [length]. lia.
Qed.

Lemma registrations_app parsed more :
  registrations (parsed ++ more) = registrations parsed ++ declared more.
Proof.
  unfold registrations, declared. by rewrite List.filter_app, app_assoc.
Qed.

Lemma loadTokens_lookup parsed (i : Z) :
  len (registrations parsed) <= 2 ^ 16 ->
  tokenKinds (loadTokens parsed) !! i
  = if decide (0 <= i)
    then kindOf i <$> registrations parsed !! Z.to_nat i else None.
Proof.
  intros Hlen. rewrite loadTokens_addAll.
  by apply (addAll_init (registrations parsed)).
Qed.

(** C6 (ids in registration order), as the code has it.  [tokenId] is a
    16-bit counter.  When the tokens file yields at most 65529 named lines
    (at most 65536 registrations in all):
    - the next id is the number of registrations, and the [i]-th registration
      is stored under id [i], with its own name and signature;
    - nothing else is stored, and every stored kind carries the id it is
      stored under;
    - ids 0 to 6 are the whitespace, generic-identifier, generic-type,
      generic-object, newline, carriage-return and tab kinds;
    - the [j]-th named line of the tokens file has id [7 + j];
    - loading a longer file leaves every earlier registration as it was. *)
Theorem loadTokens_ids_in_registration_order :
  forall parsed : list (bytes * bytes),
    len (registrations parsed) <= 2 ^ 16 ->
    tokenKindId (loadTokens parsed) = wrap16 (len (registrations parsed)) /\
    (forall (i : nat) d,
        registrations parsed !! i = Some d ->
        tokenKinds (loadTokens parsed) !! Z.of_nat i
        = Some (kindOf (Z.of_nat i) d)) /\
    (forall (i : Z) k,
        tokenKinds (loadTokens parsed) !! i = Some k ->
        0 <= i < len (registrations parsed) /\ Id k = i) /\
    tokenKindMap.Get (tokenKinds (loadTokens parsed)) <$> [0; 1; 2; 3; 4; 5; 6]
    = [ mkTokenKind 0 (b "WHTSPACE") (b " ");
        mkTokenKind 1 (b "GENIDEN") (b "&IDEN");
        mkTokenKind 2 (b "GENTYPE") (b "&TYPE");
        mkTokenKind 3 (b "GENOBJ") (b "&OBJ");
        mkTokenKind 4 (b "NEWLINE") ["010"%char];
        mkTokenKind 5 (b "CRETURN") ["013"%char];
        mkTokenKind 6 (b "TABLINE") ["009"%char] ] /\
    (forall (j : nat) d,
        declared parsed !! j = Some d ->
        tokenKinds (loadTokens parsed) !! (7 + Z.of_nat j)
        = Some (kindOf (7 + Z.of_nat j) d)) /\
    (forall more (i : Z) k,
        len (registrations (parsed ++ more)) <= 2 ^ 16 ->
        tokenKinds (loadTokens parsed) !! i = Some k ->
        tokenKinds (loadTokens (parsed ++ more)) !! i = Some k).
Proof.
  intros parsed Hlen.
  assert (Hat : forall (i : nat) d,
             registrations parsed !! i = Some d ->
             tokenKinds (loadTokens parsed) !! Z.of_nat i
             = Some (kindOf (Z.of_nat i) d)).
  { intros i d Hd. rewrite loadTokens_lookup by done.
    rewrite decide_True by lia. by rewrite Nat2Z.id, Hd. }
  assert (Hdom : forall (i : Z) k,
             tokenKinds (loadTokens parsed) !! i = Some k ->
             0 <= i < len (registrations parsed) /\ Id k = i).
  { intros i k. rewrite loadTokens_lookup by done.
    destruct (decide (0 <= i)); [|done].
    destruct (registrations parsed !! Z.to_nat i) as [d|] eqn:Hd; [|done].
    intros [= <-]. apply lookup_lt_Some in Hd. unfold len. split; [lia|done]. }
  split; [|split; [exact Hat|split; [exact Hdom|split; [|split]]]].
  - rewrite loadTokens_addAll.
    by apply (addAll_init (registrations parsed)).
  - unfold tokenKindMap.Get, tokenKindMap.index. cbn [fmap list_fmap].
    pose proof (Hat 0%nat _ eq_refl) as H0.
    pose proof (Hat 1%nat _ eq_refl) as H1.
    pose proof (Hat 2%nat _ eq_refl) as H2.
    pose proof (Hat 3%nat _ eq_refl) as H3.
    pose proof (Hat 4%nat _ eq_refl) as H4.
    pose proof (Hat 5%nat _ eq_refl) as H5.
    pose proof (Hat 6%nat _ eq_refl) as H6.
    change (Z.of_nat 0) with 0 in H0. change (Z.of_nat 1) with 1 in H1.
    change (Z.of_nat 2) with 2 in H2. change (Z.of_nat 3) with 3 in H3.
    change (Z.of_nat 4) with 4 in H4. change (Z.of_nat 5) with 5 in H5.
    change (Z.of_nat 6) with 6 in H6.
    rewrite H0, H1, H2, H3, H4, H5, H6.
    reflexivity.
  - intros j d Hd.
    replace (7 + Z.of_nat j) with (Z.of_nat (7 + j)) by lia.
    apply Hat. unfold registrations.
    by rewrite lookup_app_r; [rewrite Nat.add_comm, Nat.add_sub|cbn; lia].
  - intros more i k Hlen' Hk.
    destruct (Hdom i k Hk) as [Hi <-].
    revert Hk. rewrite !loadTokens_lookup by done.
    rewrite !decide_True by lia.
    rewrite registrations_app, lookup_app_l; [done|].
    unfold len in Hi. lia.
Qed.

Lemma loadTokens_ids_in_registration_order_witness :
  len (registrations [(b "EQ", b "="); (b "EQEQ", b "==")]) <= 2 ^ 16 /\
  tokenKinds withEq !! 8 = Some (mkTokenKind 8 (b "EQEQ") (b "==")).
Proof.
  split; [vm_compute; discriminate|].
  exact (proj1 (proj2 (proj2 (proj2 (proj2
    (loadTokens_ids_in_registration_order
       [(b "EQ", b "="); (b "EQEQ", b "==")]
       ltac:(vm_compute; discriminate))))))
    1%nat (b "EQEQ", b "==") eq_refl).
Defined.

(** C6 as stated fails once the 16-bit id wraps: after the seven reserved
    kinds and 65530 declared lines, the 65537th registration is given id 0
    again and replaces the whitespace kind. *)
Lemma loadTokens_id_reused_after_wrap :
  tokenKindMap.Get
    (tokenKinds (loadTokens (replicate (Z.to_nat 65530) (b "K", b "k")))) 0
  = mkTokenKind 0 (b "K") (b "k") /\
  tokenKindMap.Get (tokenKinds reservedOnly) 0
  = mkTokenKind 0 (b "WHTSPACE") (b " ").
Proof. split; vm_compute; reflexivity. Qed.

(** ** Lookup by id *)

(** C7 (lookup by id), as the code has it.  [Get] indexes the map: for an
    id that was never registered it returns the zero [TokenKind] (id 0, empty
    name, empty signature) and raises nothing; for a registered id it returns
    the kind registered under it. *)
Theorem Get_zero_value_or_registered :
  forall (tkm : gmap Z TokenKind) (id : Z),
    (tkm !! id = None -> tokenKindMap.Get tkm id = zeroTokenKind) /\
    (forall kind, tkm !! id = Some kind -> tokenKindMap.Get tkm id = kind).
Proof.
  intros tkm id. unfold tokenKindMap.Get, tokenKindMap.index.
  split; [intros ->|intros kind ->]; reflexivity.
Qed.

Lemma Get_zero_value_or_registered_witness :
  (tokenKinds reservedOnly !! 7 = None /\
   tokenKindMap.Get (tokenKinds reservedOnly) 7 = zeroTokenKind) /\
  (tokenKinds reservedOnly !! 1
   = Some (mkTokenKind 1 (b "GENIDEN") (b "&IDEN")) /\
   tokenKindMap.Get (tokenKinds reservedOnly) 1
   = mkTokenKind 1 (b "GENIDEN") (b "&IDEN")).
Proof.
  split; split.
  - vm_compute; reflexivity.
  - apply (proj1 (Get_zero_value_or_registered (tokenKinds reservedOnly) 7)).
    vm_compute; reflexivity.
  - vm_compute; reflexivity.
  - apply (proj2 (Get_zero_value_or_registered (tokenKinds reservedOnly) 1)).
    vm_compute; reflexivity.
Defined.

(** C7 as stated fails: id 7 is not registered in the registry of an empty
    tokens file, the specification's [get] fails on it, and [Get] returns a
    value. *)
Lemma Get_unregistered_returns_a_value :
  tokenKinds reservedOnly !! 7 = None /\
  get_spec (tokenKinds reservedOnly) 7 = inl UnknownKind /\
  tokenKindMap.Get (tokenKinds reservedOnly) 7 = mkTokenKind 0 [] [] /\
  inr (tokenKindMap.Get (tokenKinds reservedOnly) 7)
  <> get_spec (tokenKinds reservedOnly) 7.
Proof. repeat split; vm_compute; congruence. Qed.

(** ** The look-ahead window *)

(** C5 (bounded look-ahead window).  The window that [isToken] starts from
    is [calcStep(text)], and the subtraction in [calcStep] cancels the
    running maximum: the window is the length of the text.  With the
    reserved kinds only, [maxSignatureLength()] is 5 and the window for the
    8-character text ["abcdefgh"] is 8, not [min 5 8 = 5]. *)
Theorem calcStep_exceeds_maxSignatureLength :
  maxSignatureLength reservedOnly = 5 /\
  calcStep reservedOnly (b "abcdefgh") = 8 /\
  calcStep reservedOnly (b "abcdefgh")
  <> Z.min (maxSignatureLength reservedOnly) (len (b "abcdefgh")).
Proof.
  split; [vm_compute; reflexivity|].
  split; [vm_compute; reflexivity|].
  vm_compute. discriminate.
Qed.

(** ** What the matching engine returns *)

(** Every result of [findToken] is either the generic fallback (id 1 with
    the whole line) or an id whose registered signature is exactly the
    returned text, a view of the line from offset 0. *)
Lemma findToken_result G (fuel : nat) line step ids id sig :
  findToken G fuel line step ids = Done (id, sig) ->
  (id = 1 /\ sig = line) \/
  (Signature (tokenKindMap.index (tokenKinds G) id) = sig /\
   exists n : nat, sig = take n line).
Proof.
  revert step ids.
  induction fuel as [|fuel IH]; intros step ids; [done|].
  rewrite findToken_S.
  destruct (calcView line 0 step) as [view| |] eqn:Hview; [|done|done].
  cbn [mbind outcome_bind].
  destruct (if bool_decide (len ids = 0) then _ else _) as [|i [|j rest]].
  - intros [= <- <-]. by left.
  - destruct (tokenKindMap.FindEx (tokenKinds G) view [i]) as [|id0 found]
      eqn:Hex; [apply IH|].
    intros [= <- <-]. right. split.
    + apply (FindEx_exact _ _ [i]). rewrite Hex. by left.
    + by apply calcView_0_prefix in Hview.
  - destruct (calcView line step 1) as [ahead| |]; [|done|done].
    cbn [mbind outcome_bind].
    destruct (isToken G ahead) as [tok| |]; [|done|done].
    cbn [mbind outcome_bind].
    destruct (negb tok); apply IH.
Qed.

(** C8 as stated fails: with the registry of an empty tokens file the engine
    returns the generic-type id on the line ["&TYPE"] and the generic-object
    id on the line ["&OBJ"]. *)
Lemma findToken_returns_reserved_generic_ids :
  findToken reservedOnly 6 (b "&TYPE") 1 [] = Done (2, b "&TYPE") /\
  findToken reservedOnly 5 (b "&OBJ") 1 [] = Done (3, b "&OBJ").
Proof. split; vm_compute; reflexivity. Qed.

(** C8 (reserved generic ids), as the code has it.  The generic-type and
    generic-object kinds are ordinary entries of the table, with the
    signatures ["&TYPE"] and ["&OBJ"].  In a registry built by the loader
    (at most 65536 registrations) [findToken] returns id 2 only with the
    text ["&TYPE"] and id 3 only with the text ["&OBJ"], and that text is a
    prefix of the line: on a line that does not start with either text it
    returns neither id. *)
Theorem findToken_generic_type_object_only_on_their_signature :
  forall (parsed : list (bytes * bytes)) (fuel : nat) line step ids id sig,
    len (registrations parsed) <= 2 ^ 16 ->
    findToken (loadTokens parsed) fuel line step ids = Done (id, sig) ->
    (id = 2 -> sig = b "&TYPE") /\
    (id = 3 -> sig = b "&OBJ") /\
    (id = 2 \/ id = 3 -> exists n : nat, sig = take n line).
Proof.
  intros parsed fuel line step ids id sig Hlen Hft.
  pose proof (loadTokens_lookup parsed 2 Hlen) as H2.
  pose proof (loadTokens_lookup parsed 3 Hlen) as H3.
  cbn in H2, H3.
  apply findToken_result in Hft as [[-> ->]|[Hsig Hpre]].
  - repeat split; intros; lia.
  - unfold tokenKindMap.index in Hsig.
    split; [|split]; [intros ->|intros ->|done].
    + by rewrite H2 in Hsig.
    + by rewrite H3 in Hsig.
Qed.

Lemma findToken_generic_type_object_only_on_their_signature_witness :
  len (registrations []) <= 2 ^ 16 /\
  findToken (loadTokens []) 6 (b "&TYPE") 1 [] = Done (2, b "&TYPE") /\
  ((2 = 2 -> b "&TYPE" = b "&TYPE") /\
   (2 = 3 -> b "&TYPE" = b "&OBJ") /\
   (2 = 2 \/ 2 = 3 -> exists n : nat, b "&TYPE" = take n (b "&TYPE"))).
Proof.
  split; [vm_compute; discriminate|].
  split; [vm_compute; reflexivity|].
  apply (findToken_generic_type_object_only_on_their_signature
           [] 6%nat (b "&TYPE") 1 [] 2 (b "&TYPE")).
  - vm_compute; discriminate.
  - vm_compute; reflexivity.
Defined.

(** ** Termination of the matching engine *)

Lemma findToken_P_step (fuel : nat) (step : Z) :
  1 <= step < 2 ^ 63 ->
  findToken reservedOnly (S fuel) (b "P") step []
  = findToken reservedOnly fuel (b "P") (wrap64 (step + 1)) [].
Proof.
  intros H. rewrite findToken_S, calcView_0 by lia.
  replace (take (Z.to_nat step) (b "P")) with (b "P")
    by (symmetry; apply take_ge; simpl; lia).
  cbn [mbind outcome_bind].
  replace (bool_decide (len (@nil Z) = 0)) with true by reflexivity.
  replace (tokenKindMap.Find (tokenKinds reservedOnly) (b "P") [])
    with [2] by (vm_compute; reflexivity).
  replace (tokenKindMap.FindEx (tokenKinds reservedOnly) (b "P") [2])
    with (@nil Z) by (vm_compute; reflexivity).
  reflexivity.
Qed.

Lemma findToken_P_from (fuel : nat) (step : Z) :
  1 <= step <= 2 ^ 63 ->
  findToken reservedOnly fuel (b "P") step [] = OutOfFuel \/
  (2 ^ 63 <= step + Z.of_nat fuel - 1 /\
   findToken reservedOnly fuel (b "P") step [] = Panic).
Proof.
  revert step. induction fuel as [|fuel IH]; intros step H; [by left|].
  destruct (decide (step = 2 ^ 63)) as [->|Hne].
  - right. split; [lia|].
    rewrite findToken_S.
    replace (calcView (b "P") 0 (2 ^ 63)) with (@Panic bytes)
      by (vm_compute; reflexivity).
    reflexivity.
  - rewrite findToken_P_step by lia.
    unfold wrap64. rewrite Z.mod_small by lia.
    destruct (IH (step + 1)) as [Ht|[Hb Hp]]; [lia|by left|].
    right. split; [lia|done].
Qed.

(** C2 (termination of the matching engine).  With the registry of an empty
    tokens file, [findToken] on the one-character line [P] from step 1 never
    returns: only the signature [&TYPE] contains [P], it never equals a prefix
    of the line, and every call recurses with [step + 1] on a fresh candidate
    set.  [step] exceeds [len(line)] from the second call on.  A budget
    below 2^63 calls runs out; the call that would have [step = 2^63] slices
    out of range. *)
Theorem findToken_P_never_returns :
  forall fuel : nat,
    findToken reservedOnly fuel (b "P") 1 [] = OutOfFuel \/
    (2 ^ 63 <= Z.of_nat fuel /\
     findToken reservedOnly fuel (b "P") 1 [] = Panic).
Proof.
  intros fuel.
  destruct (findToken_P_from fuel 1) as [Ht|[Hb Hp]]; [lia|by left|].
  right. split; [lia|done].
Qed.

(** ** Slices out of range

    The scanner always returns, and so does the look-ahead check in a
    registry that is not empty: the slices of the tokenizer that can go out
    of range are the ones [calcView] takes for [findToken]. *)

Lemma findIdenToken_loop_returns G (n : nat) line step view lookAhead :
  len line < 2 ^ 64 ->
  1 <= step <= len line -> len line - step < Z.of_nat n ->
  lookAhead <> [] -> len lookAhead < 2 ^ 64 ->
  exists v, findIdenToken_loop G n line step view lookAhead = Done v.
Proof.
  intros Hlen. revert step view lookAhead.
  induction n as [|n IH]; intros step view lookAhead Hstep Hn Hla Hlal; [lia|].
  cbn [findIdenToken_loop].
  destruct (isToken_returns G lookAhead) as [tok ->]; [done|by left|].
  cbn [mbind outcome_bind]. destruct tok; cbn [negb]; [eauto|].
  destruct (slice_in_range line 0 step) as [view' Hview]; [lia|lia|].
  unfold sliceTo. rewrite Hview. cbn [mbind outcome_bind].
  destruct (slice_in_range line step (len line)) as [look' Hlook]; [lia|lia|].
  unfold sliceFrom. rewrite Hlook. cbn [mbind outcome_bind].
  destruct (Z.gtb_spec (step + 1) (len line)); [eauto|].
  apply slice_Done in Hlook as (_ & _ & ->).
  apply IH; [lia|lia| |].
  - intros Hnil. apply (f_equal length) in Hnil.
    rewrite length_take, length_drop in Hnil. unfold len in *.
    cbn [length] in Hnil. lia.
  - unfold len in *. rewrite length_take, length_drop. lia.
Qed.

(** X4.  [findIdenToken] always returns on a non-empty text, in every
    registry: none of its slices, nor those of the [isToken] calls it makes,
    goes out of range. *)
Lemma findIdenToken_returns G line :
  1 <= len line < 2 ^ 64 -> exists v, findIdenToken G line = Done v.
Proof.
  intros Hlen. unfold findIdenToken.
  destruct (bool_decide (len line = 1)) eqn:Hone; [eauto|].
  apply bool_decide_eq_false in Hone.
  destruct (slice_in_range line 0 1) as [view Hview]; [lia|lia|].
  unfold sliceTo. rewrite Hview. cbn [mbind outcome_bind].
  destruct (slice_in_range line 1 (len line)) as [look Hlook]; [lia|lia|].
  unfold sliceFrom. rewrite Hlook. cbn [mbind outcome_bind].
  apply slice_Done in Hlook as (_ & _ & ->).
  apply findIdenToken_loop_returns; [lia|lia| | |].
  - unfold len. lia.
  - intros Hnil. apply (f_equal length) in Hnil.
    rewrite length_take, length_drop in Hnil. unfold len in *.
    cbn [length] in Hnil. lia.
  - unfold len in *. rewrite length_take, length_drop. lia.
Qed.

Lemma findIdenToken_returns_witness :
  1 <= len (b "abc==x") < 2 ^ 64 /\
  exists v, findIdenToken withEqEq (b "abc==x") = Done v.
Proof.
  split; [split; [vm_compute; discriminate|vm_compute; reflexivity]|].
  apply (findIdenToken_returns withEqEq (b "abc==x")).
  split; [vm_compute; discriminate|vm_compute; reflexivity].
Defined.

(** C9 (slices stay in bounds).  With the registry of an empty tokens file
    and the line consisting of the single character [&], [findToken] reaches
    [calcView(line, 2, 1)], which slices [line[2:]] on a line of length 1:
    [findToken] and [TokenizeLine] abort with the out-of-range slice, for
    every budget of at least three calls.  The same happens with ["="] and
    ["=="] declared. *)
Theorem TokenizeLine_ampersand_slice_out_of_range :
  calcView (b "&") 2 1 = Panic /\
  (forall n : nat, findToken reservedOnly (3 + n) (b "&") 1 [] = Panic) /\
  (forall n : nat, TokenizeLine reservedOnly (3 + n) (b "&") 0 = Panic) /\
  (forall n : nat, TokenizeLine withEq (3 + n) (b "&") 0 = Panic).
Proof.
  split; [vm_compute; reflexivity|].
  split; [|split]; intros n.
  - apply findToken_enough; [vm_compute; reflexivity|discriminate].
  - apply TokenizeLine_enough; [vm_compute; reflexivity|discriminate].
  - apply TokenizeLine_enough; [vm_compute; reflexivity|discriminate].
Qed.

(** ** Reconstruction of the line *)

(** C1 (totality).  With the registry of an empty tokens file, the line
    consisting of the single character [&] is never tokenized: whatever the
    recursion budget, [TokenizeLine] returns no token sequence.  (The three
    generic signatures contain [&] and none is [&]; the engine falls back to
    candidate 1, moves [step] past the end of the line and slices out of
    range.) *)
Theorem TokenizeLine_ampersand_never_returns :
  forall (fuel : nat) (toks : list TokenObject),
    TokenizeLine reservedOnly fuel (b "&") 0 <> Done toks.
Proof.
  intros fuel toks.
  destruct (le_lt_dec 3 fuel) as [Hle|Hlt].
  - replace fuel with (3 + (fuel - 3))%nat by lia.
    rewrite (TokenizeLine_enough reservedOnly 3 (b "&") 0 Panic);
      [discriminate|vm_compute; reflexivity|discriminate].
  - destruct fuel as [|[|[|fuel]]]; [| | |lia]; vm_compute; discriminate.
Qed.

Lemma findIdenToken_loop_prefix G (n : nat) line step view lookAhead v :
  findIdenToken_loop G n line step view lookAhead = Done v ->
  v = view \/ exists m : nat, v = take m line.
Proof.
  revert step view lookAhead.
  induction n as [|n IH]; intros step view lookAhead;
    cbn [findIdenToken_loop];
    (destruct (isToken G lookAhead) as [tok| |]; [|done|done]);
    cbn [mbind outcome_bind]; (destruct tok; cbn [negb]);
    try (intros [= <-]; by left); try done.
  destruct (sliceTo line step) as [view'| |] eqn:Hv; [|done|done].
  cbn [mbind outcome_bind].
  destruct (sliceFrom line step) as [look'| |]; [|done|done].
  cbn [mbind outcome_bind].
  apply slice_Done in Hv as (_ & _ & ->). rewrite drop_0.
  destruct (_ >? _).
  - intros [= <-]. right. eauto.
  - intros [H|H]%IH; right; [rewrite H|]; eauto.
Qed.

(** The scanner returns a prefix of the provisional text. *)
Lemma findIdenToken_prefix G line v :
  findIdenToken G line = Done v -> exists m : nat, v = take m line.
Proof.
  unfold findIdenToken. destruct (bool_decide (len line = 1)).
  - intros [= <-]. exists (length line). by rewrite take_ge.
  - destruct (sliceTo line 1) as [view| |] eqn:Hv; [|done|done].
    cbn [mbind outcome_bind].
    destruct (sliceFrom line 1) as [look| |]; [|done|done].
    cbn [mbind outcome_bind].
    apply slice_Done in Hv as (_ & _ & ->). rewrite drop_0.
    intros [->|H]%findIdenToken_loop_prefix; eauto.
Qed.

Lemma texts_snoc toks t : texts (toks ++ [t]) = texts toks ++ Symbol t.
Proof.
  unfold texts. rewrite fmap_app, concat_app. cbn. by rewrite app_nil_r.
Qed.

Lemma TokenizeLine_loop_texts G (fuel : nat) line lineNo pos tokens toks :
  len line < 2 ^ 64 ->
  0 <= pos <= len line ->
  texts tokens = take (Z.to_nat pos) line ->
  TokenizeLine_loop G fuel line lineNo pos tokens = Done toks ->
  texts toks = line.
Proof.
  intros Hlen. revert pos tokens.
  induction fuel as [|fuel IH]; intros pos tokens Hpos Htexts.
  - rewrite TokenizeLine_loop_O. unfold wrap64.
    rewrite Z.mod_small by (pose proof (len_nonneg line); lia).
    destruct (Z.ltb_spec pos (len line)); [done|].
    intros [= <-]. rewrite Htexts, take_ge; [done|]. unfold len in *. lia.
  - rewrite TokenizeLine_loop_S. unfold wrap64 at 1.
    rewrite Z.mod_small by (pose proof (len_nonneg line); lia).
    destruct (Z.ltb_spec pos (len line)).
    2: { intros [= <-]. rewrite Htexts, take_ge; [done|].
         unfold len in *. lia. }
    destruct (sliceFrom line pos) as [rest| |] eqn:Hrest; [|done|done].
    cbn [mbind outcome_bind].
    apply slice_Done in Hrest as (_ & _ & Hrest).
    rewrite take_ge in Hrest by (rewrite length_drop; unfold len; lia).
    destruct (findToken G (S fuel) rest 1 []) as [[id sig]| |] eqn:Hft;
      [|done|done].
    cbn [mbind outcome_bind].
    assert (Hsig : exists n : nat, sig = take n rest).
    { apply findToken_result in Hft as [[_ ->]|[_ Hpre]]; [|done].
      exists (length rest). by rewrite take_ge. }
    destruct (if bool_decide (id = 1) then _ else _) as [sig'| |] eqn:Hs;
      [|done|done].
    cbn [mbind outcome_bind].
    assert (Hsig' : sig' = take (length sig') rest).
    { destruct Hsig as [n ->]. destruct (bool_decide (id = 1)).
      - apply findIdenToken_prefix in Hs as [m ->]. apply take_take_prefix.
      - injection Hs as <-. apply take_prefix_length. }
    assert (Hle : (length sig' <= length rest)%nat).
    { rewrite Hsig', length_take. lia. }
    assert (Hrl : length rest = (length line - Z.to_nat pos)%nat).
    { rewrite Hrest, length_drop. reflexivity. }
    apply IH.
    + unfold wrap64, len in *. rewrite Z.mod_small by lia. lia.
    + rewrite texts_snoc. cbn [TokenKindM.New Symbol].
      unfold wrap64, len in *. rewrite (Z.mod_small (pos + _)) by lia.
      rewrite Htexts, Hsig' at 1. rewrite Hrest, take_take_drop.
      f_equal. lia.
Qed.

(** X1.  The part of totality that holds: whenever [TokenizeLine] returns,
    the texts of the tokens, concatenated in order, are the line. *)
Lemma TokenizeLine_texts G (fuel : nat) line lineNo toks :
  len line < 2 ^ 64 ->
  TokenizeLine G fuel line lineNo = Done toks ->
  texts toks = line.
Proof.
  intros Hlen. unfold TokenizeLine.
  apply TokenizeLine_loop_texts; [done|pose proof (len_nonneg line); lia|done].
Qed.

Lemma TokenizeLine_texts_witness :
  len (b "abc==") < 2 ^ 64 /\
  TokenizeLine withEqEq 3 (b "abc==") 0
  = Done [mkTokenObject (mkTokenKind 1 (b "GENIDEN") (b "&IDEN")) 0 1 (b "abc");
          mkTokenObject (mkTokenKind 7 (b "EQEQ") (b "==")) 0 4 (b "==")] /\
  texts [mkTokenObject (mkTokenKind 1 (b "GENIDEN") (b "&IDEN")) 0 1 (b "abc");
         mkTokenObject (mkTokenKind 7 (b "EQEQ") (b "==")) 0 4 (b "==")]
  = b "abc==".
Proof.
  split; [vm_compute; reflexivity|].
  split; [vm_compute; reflexivity|].
  apply (TokenizeLine_texts withEqEq 3 (b "abc==") 0);
    vm_compute; reflexivity.
Defined.

(** ** Maximal munch *)

Lemma findToken_two_EqEq_loops (fuel : nat) :
  findToken withTwoEqEq fuel (b "==") 2 [9; 8] = OutOfFuel.
Proof.
  induction fuel as [|fuel IH]; [reflexivity|].
  rewrite findToken_S.
  change (calcView (b "==") 0 2) with (Done (b "==")).
  cbn [mbind outcome_bind].
  change (bool_decide (len [9; 8] = 0)) with false. cbv iota.
  change (calcView (b "==") 2 1) with (Done (@nil ascii)).
  cbn [mbind outcome_bind].
  replace (isToken withTwoEqEq []) with (Done false)
    by (vm_compute; reflexivity).
  cbn [mbind outcome_bind negb].
  replace (tokenKindMap.FindEx (tokenKinds withTwoEqEq) (b "==") [9; 8])
    with [9; 8] by (vm_compute; reflexivity).
  exact IH.
Qed.

Lemma TokenizeLine_two_EqEq_loops (fuel : nat) :
  TokenizeLine withTwoEqEq fuel (b "==") 0 = OutOfFuel.
Proof.
  destruct fuel as [|fuel]; [reflexivity|].
  unfold TokenizeLine. rewrite TokenizeLine_loop_S.
  change (0 <? wrap64 (len (b "=="))) with true. cbv iota.
  change (sliceFrom (b "==") 0) with (Done (b "==")).
  cbn [mbind outcome_bind].
  replace (findToken withTwoEqEq (S fuel) (b "==") 1 []) with
    (@OutOfFuel (Z * bytes)); [reflexivity|].
  rewrite findToken_S.
  change (calcView (b "==") 0 1) with (Done (b "=")).
  cbn [mbind outcome_bind].
  change (bool_decide (len (@nil Z) = 0)) with true. cbv iota.
  replace (tokenKindMap.Find (tokenKinds withTwoEqEq) (b "=") [])
    with [7; 9; 8] by (vm_compute; reflexivity).
  change (calcView (b "==") 1 1) with (Done (b "=")).
  cbn [mbind outcome_bind].
  replace (isToken withTwoEqEq (b "=")) with (Done true)
    by (vm_compute; reflexivity).
  cbn [mbind outcome_bind negb].
  change (wrap64 (1 + 1)) with 2.
  destruct fuel as [|fuel]; [reflexivity|].
  rewrite findToken_S.
  change (calcView (b "==") 0 2) with (Done (b "==")).
  cbn [mbind outcome_bind].
  change (bool_decide (len [7; 9; 8] = 0)) with false. cbv iota.
  change (calcView (b "==") 2 1) with (Done (@nil ascii)).
  cbn [mbind outcome_bind].
  replace (isToken withTwoEqEq []) with (Done false)
    by (vm_compute; reflexivity).
  cbn [mbind outcome_bind negb].
  replace (tokenKindMap.FindEx (tokenKinds withTwoEqEq) (b "==") [7; 9; 8])
    with [9; 8] by (vm_compute; reflexivity).
  cbv zeta.
  change (bool_decide (len [9; 8] = 0)) with false. cbv iota.
  symmetry. apply findToken_two_EqEq_loops.
Qed.

(** C3 (maximal munch).  Two registries in which both ["="] and ["=="] are
    registered next to the reserved kinds, and on which the line ["=="] is
    not tokenized.
    - Tokens file [EQ =], [EQEQ ==], [EMPTY ]: the look-ahead at the end of
      the line is the empty string, an exact match of the empty signature, so
      the engine extends [step] to 3 and slices [line[3:]] on a line of
      length 2.
    - Tokens file [EQ =], [EQEQ ==], [SAME ==]: the exact matches of ["=="]
      are two ids, and the engine calls itself with the same step and the
      same two ids, without end. *)
Theorem maximal_munch_fails_on_empty_or_shared_signature :
  tokenKinds withEqAndEmpty !! 7 = Some (mkTokenKind 7 (b "EQ") (b "=")) /\
  tokenKinds withEqAndEmpty !! 8 = Some (mkTokenKind 8 (b "EQEQ") (b "==")) /\
  (forall n : nat, TokenizeLine withEqAndEmpty (3 + n) (b "==") 0 = Panic) /\
  (forall (fuel : nat) toks,
      TokenizeLine withEqAndEmpty fuel (b "==") 0 <> Done toks) /\
  tokenKinds withTwoEqEq !! 7 = Some (mkTokenKind 7 (b "EQ") (b "=")) /\
  tokenKinds withTwoEqEq !! 8 = Some (mkTokenKind 8 (b "EQEQ") (b "==")) /\
  (forall fuel : nat, TokenizeLine withTwoEqEq fuel (b "==") 0 = OutOfFuel).
Proof.
  assert (Hp : forall n : nat,
             TokenizeLine withEqAndEmpty (3 + n) (b "==") 0 = Panic).
  { intros n.
    apply TokenizeLine_enough; [vm_compute; reflexivity|discriminate]. }
  split; [vm_compute; reflexivity|].
  split; [vm_compute; reflexivity|].
  split; [exact Hp|].
  split.
  { intros fuel toks.
    destruct (le_lt_dec 3 fuel) as [Hle|Hlt].
    - replace fuel with (3 + (fuel - 3))%nat by lia. rewrite Hp. discriminate.
    - destruct fuel as [|[|[|fuel]]]; [| | |lia]; vm_compute; discriminate. }
  split; [vm_compute; reflexivity|].
  split; [vm_compute; reflexivity|].
  exact TokenizeLine_two_EqEq_loops.
Qed.

(** X2.  Maximal munch where the engine achieves it: in every registry that
    holds a kind with signature ["="], exactly one kind with signature
    ["=="], stored under an id other than 1, and no kind with an empty
    signature, the line ["=="] is one token of the ["=="] kind. *)
Theorem maximal_munch_without_empty_signature :
  forall (G : Globals) (j k : Z) (kj kk : TokenKind) (lineNo : Z) (n : nat),
    tokenKinds G !! j = Some kj -> Signature kj = b "=" ->
    tokenKinds G !! k = Some kk -> Signature kk = b "==" ->
    (forall i ki, tokenKinds G !! i = Some ki -> Signature ki = b "==" -> i = k) ->
    (forall i ki, tokenKinds G !! i = Some ki -> Signature ki <> []) ->
    k <> 1 ->
    TokenizeLine G (3 + n) (b "==") lineNo
    = Done [mkTokenObject kk lineNo 1 (b "==")].
Proof.
  intros G j k kj kk lineNo n Hj Hsj Hk Hsk Honly Hnonempty Hk1.
  set (tkm := tokenKinds G) in *.
  assert (Hij : tokenKindMap.index tkm j = kj)
    by (unfold tokenKindMap.index; by rewrite Hj).
  assert (Hik : tokenKindMap.index tkm k = kk)
    by (unfold tokenKindMap.index; by rewrite Hk).
  assert (Hjk : j <> k).
  { intros ->. rewrite Hj in Hk. injection Hk as <-.
    rewrite Hsj in Hsk. discriminate Hsk. }
  (* the candidates of the view "=" *)
  assert (HjF : In j (tokenKindMap.Find tkm (b "=") [])).
  { rewrite Find_all. apply filter_In. split; [apply In_Ids; eauto|].
    rewrite Hij, Hsj. reflexivity. }
  assert (HkF : In k (tokenKindMap.Find tkm (b "=") [])).
  { rewrite Find_all. apply filter_In. split; [apply In_Ids; eauto|].
    rewrite Hik, Hsk. reflexivity. }
  assert (HndF : NoDup (tokenKindMap.Find tkm (b "=") [])).
  { rewrite Find_all.
    apply NoDup_ListNoDup, List.NoDup_filter, NoDup_ListNoDup, Ids_NoDup. }
  destruct (tokenKindMap.Find tkm (b "=") []) as [|i1 [|i2 rest]] eqn:HF.
  { destruct HjF. }
  { destruct HjF as [->|[]]. destruct HkF as [->|[]]. done. }
  (* the look-ahead "=" is a token, the empty look-ahead is not *)
  assert (Htok : isToken G (b "=") = Done true).
  { rewrite isToken_no_loop; [|vm_compute; reflexivity| |discriminate].
    2: { fold tkm. rewrite HF. discriminate. }
    fold tkm. rewrite HF, FindEx_among. f_equal.
    destruct (List.filter _ (i1 :: i2 :: rest)) as [|x xs] eqn:Hfl;
      [|reflexivity].
    assert (Hin : In j (List.filter
      (fun id => tokenSignature.Compare
                   (Signature (tokenKindMap.index tkm id)) (b "="))
      (i1 :: i2 :: rest))).
    { apply filter_In. split; [done|]. rewrite Hij, Hsj. reflexivity. }
    rewrite Hfl in Hin. destruct Hin. }
  assert (Hids : tokenKindMap.Ids tkm <> []).
  { intros Hnil. assert (In k (tokenKindMap.Ids tkm)) as Hin
      by (apply In_Ids; eauto).
    rewrite Hnil in Hin. destruct Hin. }
  assert (Hend : isToken G [] = Done false).
  { rewrite isToken_no_loop; [|vm_compute; reflexivity| |discriminate].
    2: { fold tkm. by rewrite Find_empty_text. }
    fold tkm. rewrite Find_empty_text. f_equal.
    destruct (tokenKindMap.Ids tkm) as [|i ids] eqn:Hi; [done|].
    rewrite FindEx_among, filter_none; [reflexivity|].
    intros x Hx. rewrite <- Hi in Hx. apply In_Ids in Hx as [kx Hkx].
    unfold tokenSignature.Compare, tokenKindMap.index. rewrite Hkx. cbn.
    apply bool_decide_eq_false_2. by apply (Hnonempty x). }
  (* the exact matches of the view "==" among the candidates *)
  assert (Hex : tokenKindMap.FindEx tkm (b "==") (i1 :: i2 :: rest) = [k]).
  { rewrite FindEx_among. apply filter_only; [done|done| |].
    - rewrite Hik, Hsk. reflexivity.
    - intros x Hx Hcmp. apply bool_decide_eq_true in Hcmp.
      assert (In x (tokenKindMap.Ids tkm)) as [kx Hkx]%In_Ids.
      { rewrite <- HF, Find_all in Hx. by apply filter_In in Hx as [? _]. }
      apply (Honly x kx Hkx). revert Hcmp. unfold tokenKindMap.index.
      by rewrite Hkx. }
  assert (Hexk : tokenKindMap.FindEx tkm (b "==") [k] = [k]).
  { rewrite FindEx_among. cbn. rewrite Hik, Hsk. reflexivity. }
  assert (Hft : findToken G 3 (b "==") 1 [] = Done (k, b "==")).
  { rewrite findToken_S.
    change (calcView (b "==") 0 1) with (Done (b "=")).
    cbn [mbind outcome_bind].
    change (bool_decide (len (@nil Z) = 0)) with true. cbv iota.
    fold tkm. rewrite HF.
    change (calcView (b "==") 1 1) with (Done (b "=")).
    cbn [mbind outcome_bind]. rewrite Htok. cbn [mbind outcome_bind negb].
    change (wrap64 (1 + 1)) with 2.
    rewrite findToken_S.
    change (calcView (b "==") 0 2) with (Done (b "==")).
    cbn [mbind outcome_bind].
    rewrite bool_decide_eq_false_2 by (unfold len; cbn [length]; lia).
    change (calcView (b "==") 2 1) with (Done (@nil ascii)).
    cbn [mbind outcome_bind]. rewrite Hend. cbn [mbind outcome_bind negb].
    fold tkm. rewrite Hex. cbv zeta.
    rewrite bool_decide_eq_false_2 by (unfold len; cbn [length]; lia).
    rewrite findToken_S.
    change (calcView (b "==") 0 2) with (Done (b "==")).
    cbn [mbind outcome_bind].
    rewrite bool_decide_eq_false_2 by (unfold len; cbn [length]; lia).
    fold tkm. rewrite Hexk. reflexivity. }
  apply TokenizeLine_enough; [|discriminate].
  unfold TokenizeLine. rewrite TokenizeLine_loop_S.
  change (0 <? wrap64 (len (b "=="))) with true. cbv iota.
  change (sliceFrom (b "==") 0) with (Done (b "==")).
  cbn [mbind outcome_bind]. rewrite Hft. cbn [mbind outcome_bind].
  rewrite bool_decide_eq_false_2 by done. cbn [mbind outcome_bind].
  change (wrap64 (0 + len (b "=="))) with 2.
  rewrite TokenizeLine_loop_S.
  change (2 <? wrap64 (len (b "=="))) with false. cbv iota.
  unfold tokenKindMap.Get. fold tkm. rewrite Hik. reflexivity.
Qed.

Lemma maximal_munch_without_empty_signature_witness :
  TokenizeLine withEq 3 (b "==") 0
  = Done [mkTokenObject (mkTokenKind 8 (b "EQEQ") (b "==")) 0 1 (b "==")].
Proof.
  apply (maximal_munch_without_empty_signature withEq 7 8
           (mkTokenKind 7 (b "EQ") (b "=")) (mkTokenKind 8 (b "EQEQ") (b "=="))
           0 0%nat).
  - vm_compute; reflexivity.
  - reflexivity.
  - vm_compute; reflexivity.
  - reflexivity.
  - intros i ki Hi Hs.
    assert (forallb
              (fun e : Z * TokenKind =>
                 implb (bool_decide (Signature e.2 = b "=="))
                       (bool_decide (e.1 = 8)))
              (map_to_list (tokenKinds withEq)) = true) as Hall
      by (vm_compute; reflexivity).
    pose proof (forall_registered (tokenKinds withEq)
      (fun i ki => implb (bool_decide (Signature ki = b "=="))
                         (bool_decide (i = 8))) Hall i ki Hi) as H.
    cbn beta in H. rewrite (bool_decide_eq_true_2 _ Hs) in H.
    by apply bool_decide_eq_true in H.
  - intros i ki Hi Hs.
    assert (forallb
              (fun e : Z * TokenKind =>
                 negb (bool_decide (Signature e.2 = [])))
              (map_to_list (tokenKinds withEq)) = true) as Hall
      by (vm_compute; reflexivity).
    pose proof (forall_registered (tokenKinds withEq)
      (fun i ki => negb (bool_decide (Signature ki = []))) Hall i ki Hi) as H.
    cbn beta in H. by rewrite (bool_decide_eq_true_2 _ Hs) in H.
  - discriminate.
Defined.

(** ** The generic identifier scanner *)

(** C4 (generic run boundary).  Two runs in which the scanner overruns a
    declared token.
    - With ["=="] registered (tokens file [EQEQ ==]) and the line ["abc==x"],
      the engine returns the generic id with the whole line as provisional
      text, and the scanner returns the whole line again: it runs over the
      declared token ["=="].  [isToken] answers false on ["==x"]: its loop
      shrinks the candidate to ["="] after it has computed the matches of
      ["=="], and the exact check compares ["="] with the signature ["=="].
    - With ["="] and ["=="] registered (tokens file [EQ =], [EQEQ ==]) and
      the line ["x==y"], [isToken] is false on ["==y"] and true on ["=y"]:
      the generic token is ["x="], followed by one ["="] token and the generic
      token ["y"]. *)
Theorem generic_run_overruns_declared_token :
  (forall n : nat,
      findToken withEqEq (1 + n) (b "abc==x") 1 [] = Done (1, b "abc==x")) /\
  isToken withEqEq (b "==x") = Done false /\
  findIdenToken withEqEq (b "abc==x") = Done (b "abc==x") /\
  (forall n : nat,
      TokenizeLine withEqEq (1 + n) (b "abc==x") 0
      = Done [mkTokenObject (mkTokenKind 1 (b "GENIDEN") (b "&IDEN"))
                            0 1 (b "abc==x")]) /\
  isToken withEq (b "==y") = Done false /\
  isToken withEq (b "=y") = Done true /\
  (forall n : nat,
      TokenizeLine withEq (4 + n) (b "x==y") 0
      = Done [mkTokenObject (mkTokenKind 1 (b "GENIDEN") (b "&IDEN"))
                            0 1 (b "x=");
              mkTokenObject (mkTokenKind 7 (b "EQ") (b "=")) 0 3 (b "=");
              mkTokenObject (mkTokenKind 1 (b "GENIDEN") (b "&IDEN"))
                            0 4 (b "y")]).
Proof.
  split; [|split; [|split; [|split; [|split; [|split]]]]].
  - intros n.
    apply findToken_enough; [vm_compute; reflexivity|discriminate].
  - vm_compute; reflexivity.
  - vm_compute; reflexivity.
  - intros n.
    apply TokenizeLine_enough; [vm_compute; reflexivity|discriminate].
  - vm_compute; reflexivity.
  - vm_compute; reflexivity.
  - intros n.
    apply TokenizeLine_enough; [vm_compute; reflexivity|discriminate].
Qed.

Lemma findIdenToken_loop_first G (n : nat) line (step : Z) (p : nat) v :
  (2 <= length line)%nat ->
  1 <= step <= len line ->
  p = Z.to_nat (Z.max 1 (step - 1)) ->
  (forall q : nat, (1 <= q < p)%nat -> isToken G (drop q line) = Done false) ->
  findIdenToken_loop G n line step (take p line) (drop p line) = Done v ->
  exists k : nat,
    (1 <= k <= length line)%nat /\ v = take k line /\
    ((k < length line)%nat -> isToken G (drop k line) = Done true) /\
    (forall q : nat, (1 <= q < k)%nat -> isToken G (drop q line) = Done false).
Proof.
  intros Hlen. revert step p.
  induction n as [|n IH]; intros step p Hstep Hp Hbefore;
    cbn [findIdenToken_loop];
    (destruct (isToken G (drop p line)) as [tok| |] eqn:Htok; [|done|done]);
    cbn [mbind outcome_bind]; unfold len in *.
  - destruct tok; cbn [negb]; [|done]. intros [= <-].
    exists p. repeat split; [lia|lia|done|done].
  - destruct tok; cbn [negb].
    { intros [= <-]. exists p. repeat split; [lia|lia|done|done]. }
    unfold sliceTo, sliceFrom. rewrite slice_prefix by (unfold len; lia).
    cbn [mbind outcome_bind].
    destruct (slice line step (len line)) as [look| |] eqn:Hlook;
      [|done|done].
    cbn [mbind outcome_bind].
    apply slice_Done in Hlook as (_ & _ & ->). unfold len.
    rewrite (take_ge (drop (Z.to_nat step) line))
      by (rewrite length_drop; lia).
    assert (Hq : forall q : nat, (1 <= q < Z.to_nat step)%nat ->
                   isToken G (drop q line) = Done false).
    { intros q Hq. destruct (decide (q = p)) as [->|Hne]; [done|].
      apply Hbefore. lia. }
    destruct (Z.gtb_spec (step + 1) (Z.of_nat (length line))).
    + intros [= <-]. exists (Z.to_nat step).
      repeat split; [lia|lia|lia|exact Hq].
    + apply (IH (step + 1) (Z.to_nat step)); [lia|lia|exact Hq].
Qed.

(** X3.  On a text of at least two characters the scanner returns the
    shortest non-empty prefix after which [isToken] holds of the rest of the
    text, and the whole text when there is none. *)
Lemma findIdenToken_first_isToken G line v :
  2 <= len line ->
  findIdenToken G line = Done v ->
  exists k : nat,
    (1 <= k <= length line)%nat /\ v = take k line /\
    ((k < length line)%nat -> isToken G (drop k line) = Done true) /\
    (forall q : nat, (1 <= q < k)%nat -> isToken G (drop q line) = Done false).
Proof.
  intros Hlen. unfold findIdenToken.
  rewrite bool_decide_eq_false_2 by lia.
  unfold sliceTo, sliceFrom. pose proof (len_nonneg line).
  rewrite slice_prefix by lia. cbn [mbind outcome_bind].
  destruct (slice line 1 (len line)) as [look| |] eqn:Hlook; [|done|done].
  cbn [mbind outcome_bind].
  apply slice_Done in Hlook as (_ & _ & ->).
  rewrite (take_ge (drop (Z.to_nat 1) line))
    by (rewrite length_drop; unfold len; lia).
  apply (findIdenToken_loop_first G _ line 1 1%nat);
    [unfold len in *; lia|lia|reflexivity|intros q Hq; lia].
Qed.

Lemma findIdenToken_first_isToken_witness :
  2 <= len (b "abc==") /\
  findIdenToken withEqEq (b "abc==") = Done (b "abc") /\
  exists k : nat,
    (1 <= k <= length (b "abc=="))%nat /\ b "abc" = take k (b "abc==") /\
    ((k < length (b "abc=="))%nat ->
     isToken withEqEq (drop k (b "abc==")) = Done true) /\
    (forall q : nat, (1 <= q < k)%nat ->
     isToken withEqEq (drop q (b "abc==")) = Done false).
Proof.
  split; [vm_compute; discriminate|].
  split; [vm_compute; reflexivity|].
  apply (findIdenToken_first_isToken withEqEq (b "abc==") (b "abc")).
  - vm_compute; discriminate.
  - vm_compute; reflexivity.
Defined.

(** ** Lines and files *)

Lemma outcome_fmap_bind {A B C} (f : B -> C) (m : outcome A)
    (k : A -> outcome B) :
  f <$> (m ≫= k) = m ≫= (fun a => f <$> k a).
Proof. by destruct m. Qed.

(** The line number given to [TokenizeLine] is only copied into the tokens. *)
Lemma TokenizeLine_loop_lineNo G (fuel : nat) line (ln ln' : Z) pos
    (tokens : list TokenObject) :
  TokenizeLine_loop G fuel line ln pos (relabel ln tokens)
  = relabel ln <$> TokenizeLine_loop G fuel line ln' pos tokens.
Proof.
  revert pos tokens. induction fuel as [|fuel IH]; intros pos tokens.
  - rewrite !TokenizeLine_loop_O. by destruct (_ <? _).
  - rewrite !TokenizeLine_loop_S.
    destruct (pos <? wrap64 (len line)); [|reflexivity].
    destruct (sliceFrom line pos) as [rest| |]; [|reflexivity|reflexivity].
    cbn [mbind outcome_bind].
    destruct (findToken G (S fuel) rest 1 []) as [[id sig]| |];
      [|reflexivity|reflexivity].
    cbn [mbind outcome_bind].
    destruct (if bool_decide (id = 1) then _ else _) as [sig'| |];
      [|reflexivity|reflexivity].
    cbn [mbind outcome_bind].
    rewrite <- IH. f_equal. unfold relabel. by rewrite fmap_app.
Qed.

Lemma TokenizeLine_lineNo G (fuel : nat) line (ln ln' : Z) :
  TokenizeLine G fuel line ln
  = relabel ln <$> TokenizeLine G fuel line ln'.
Proof.
  unfold TokenizeLine.
  exact (TokenizeLine_loop_lineNo G fuel line ln ln' 0 []).
Qed.

Lemma TokenizeLines_loop_concat G (fuel : nat) lines (i : Z) acc :
  0 <= i -> i + len lines <= 2 ^ 64 ->
  TokenizeLines_loop G fuel lines i acc
  = (app acc) <$> concatLines G fuel lines i.
Proof.
  revert i acc. induction lines as [|line lines IH]; intros i acc Hi Hlen.
  - cbn. by rewrite app_nil_r.
  - unfold len in Hlen. cbn [length] in Hlen.
    cbn [TokenizeLines_loop concatLines].
    unfold wrap64. rewrite Z.mod_small by lia.
    destruct (TokenizeLine G fuel line i) as [toks| |];
      [|reflexivity|reflexivity].
    cbn [mbind outcome_bind].
    rewrite IH by (unfold len; lia).
    destruct (concatLines G fuel lines (i + 1)) as [rest| |];
      [|reflexivity|reflexivity].
    cbn. by rewrite app_assoc.
Qed.

Lemma TokenizeFile_loop_concat G (fuel : nat) scanned (i : Z) acc :
  0 <= i -> i + len scanned < 2 ^ 64 ->
  TokenizeFile_loop G fuel scanned i acc
  = (app acc) <$> concatLines G fuel scanned (i + 1).
Proof.
  revert i acc. induction scanned as [|text scanned IH]; intros i acc Hi Hlen.
  - cbn. by rewrite app_nil_r.
  - unfold len in Hlen. cbn [length] in Hlen.
    cbn [TokenizeFile_loop concatLines].
    unfold wrap64. rewrite Z.mod_small by lia.
    destruct (TokenizeLine G fuel text (i + 1)) as [toks| |];
      [|reflexivity|reflexivity].
    cbn [mbind outcome_bind].
    rewrite IH by (unfold len; lia).
    destruct (concatLines G fuel scanned (i + 1 + 1)) as [rest| |];
      [|reflexivity|reflexivity].
    cbn. by rewrite app_assoc.
Qed.

Lemma concatLines_next G (fuel : nat) lines (i : Z) :
  concatLines G fuel lines (i + 1)
  = nextLines <$> concatLines G fuel lines i.
Proof.
  revert i. induction lines as [|line lines IH]; intros i; [reflexivity|].
  cbn [concatLines]. rewrite IH.
  rewrite (TokenizeLine_lineNo G fuel line (i + 1) i).
  rewrite (TokenizeLine_lineNo G fuel line i 0).
  destruct (TokenizeLine G fuel line 0) as [toks| |];
    [|reflexivity|reflexivity].
  cbn [fmap outcome_fmap mbind outcome_bind].
  destruct (concatLines G fuel lines (i + 1)) as [rest| |];
    [|reflexivity|reflexivity].
  cbn [fmap outcome_fmap mbind outcome_bind]. f_equal.
  unfold nextLines, relabel. rewrite fmap_app. f_equal.
  rewrite <- !list_fmap_compose. reflexivity.
Qed.

Lemma TokenizeLine_LineNo_field G (fuel : nat) line (ln : Z) toks :
  TokenizeLine G fuel line ln = Done toks ->
  Forall (fun t => LineNo t = ln) toks.
Proof.
  rewrite (TokenizeLine_lineNo G fuel line ln 0).
  destruct (TokenizeLine G fuel line 0) as [toks0| |]; [|done|done].
  intros [= <-]. unfold relabel. apply Forall_fmap, Forall_true. done.
Qed.

(** C10 (lines and files).  For a list of lines (fewer than 2^64 of them, as
    every Go slice has): [TokenizeLines] is the concatenation of
    [TokenizeLine] over the lines, the line at index [i] tokenized with
    line number [i]; [TokenizeFile] over a file whose scanner yields the same
    lines is the same concatenation numbered from 1; and the result of
    [TokenizeFile] is the result of [TokenizeLines] with every token's
    [LineNo] one higher and its [Kind], [Position] and [Symbol] unchanged.
    The two fail together when some line fails. *)
Theorem TokenizeFile_is_TokenizeLines_numbered_from_one :
  forall (G : Globals) (fuel : nat) (lines : list bytes),
    len lines < 2 ^ 64 ->
    TokenizeLines G fuel lines = concatLines G fuel lines 0 /\
    TokenizeFile G fuel lines = concatLines G fuel lines 1 /\
    TokenizeFile G fuel lines = nextLines <$> TokenizeLines G fuel lines /\
    (forall t : TokenObject,
        Kind (nextLine t) = Kind t /\ Position (nextLine t) = Position t /\
        Symbol (nextLine t) = Symbol t /\ LineNo (nextLine t) = LineNo t + 1).
Proof.
  intros G fuel lines Hlen.
  assert (Hl : TokenizeLines G fuel lines = concatLines G fuel lines 0).
  { unfold TokenizeLines. rewrite TokenizeLines_loop_concat by lia.
    by destruct (concatLines G fuel lines 0). }
  assert (Hf : TokenizeFile G fuel lines = concatLines G fuel lines 1).
  { unfold TokenizeFile. rewrite TokenizeFile_loop_concat by lia.
    change (0 + 1) with 1. by destruct (concatLines G fuel lines 1). }
  split; [exact Hl|]. split; [exact Hf|]. split; [|done].
  rewrite Hf, Hl. exact (concatLines_next G fuel lines 0).
Qed.

Lemma TokenizeFile_is_TokenizeLines_numbered_from_one_witness :
  len [b "a"; b "=="] < 2 ^ 64 /\
  TokenizeLines withEq 5 [b "a"; b "=="]
  = Done [mkTokenObject (mkTokenKind 1 (b "GENIDEN") (b "&IDEN")) 0 1 (b "a");
          mkTokenObject (mkTokenKind 8 (b "EQEQ") (b "==")) 1 1 (b "==")] /\
  TokenizeFile withEq 5 [b "a"; b "=="]
  = nextLines <$> TokenizeLines withEq 5 [b "a"; b "=="].
Proof.
  split; [vm_compute; reflexivity|].
  split; [vm_compute; reflexivity|].
  apply (TokenizeFile_is_TokenizeLines_numbered_from_one
           withEq 5%nat [b "a"; b "=="]).
  vm_compute; reflexivity.
Defined.

(** * Further properties of the code *)

(** ** Registration and lookup *)

Lemma Add_sigMax G name sig :
  tokenKindSignatureMaxSize (Add G name sig)
  = Z.max (tokenKindSignatureMaxSize G) (len sig).
Proof.
  cbn. destruct (Z.gtb_spec (len sig) (tokenKindSignatureMaxSize G)); lia.
Qed.

Lemma Add_nameMax G name sig :
  tokenKindNameMaxSize (Add G name sig)
  = Z.max (tokenKindNameMaxSize G) (len name).
Proof.
  cbn. destruct (Z.gtb_spec (len name) (tokenKindNameMaxSize G)); lia.
Qed.

Lemma strContains_refl s : strContains s s = true.
Proof.
  assert (H : forall t, hasPrefix t t = true).
  { induction t as [|c t IH]; [done|]. cbn. rewrite IH.
    unfold byte_eqb. by rewrite bool_decide_eq_true_2. }
  destruct s; cbn; [done|]. rewrite H. unfold byte_eqb.
  by rewrite bool_decide_eq_true_2.
Qed.

Lemma FindEx_all tkm sig :
  tokenKindMap.FindEx tkm sig []
  = List.filter
      (fun id => tokenSignature.Compare
                   (Signature (tokenKindMap.index tkm id)) sig)
      (tokenKindMap.Ids tkm).
Proof. reflexivity. Qed.

Lemma Find_among tkm sig i ids :
  tokenKindMap.Find tkm sig (i :: ids)
  = List.filter
      (fun id => tokenSignature.Contains
                   (Signature (tokenKindMap.index tkm id)) sig)
      (i :: ids).
Proof.
  unfold tokenKindMap.Find.
  replace (0 <? len (i :: ids)) with true; [done|].
  symmetry. apply Z.ltb_lt. unfold len. cbn [length]. lia.
Qed.

(** X5.  Registration and lookup round trip ([Add], [newKind], [Get],
    [Find], [FindEx]).  In any package state, [Add(name, sig)] stores the
    kind [{id, name, sig}] under the current [tokenKindId] and advances the
    counter by one modulo 2^16; [Get] of that id returns the kind, every other
    id keeps its entry, and both whole-table searches for [sig] return the new
    id. *)
Theorem Add_registers_under_next_id :
  forall (G : Globals) (name sig : bytes),
    tokenKindId (Add G name sig) = wrap16 (tokenKindId G + 1) /\
    tokenKindMap.Get (tokenKinds (Add G name sig)) (tokenKindId G)
    = mkTokenKind (tokenKindId G) name sig /\
    (forall id, id <> tokenKindId G ->
                tokenKinds (Add G name sig) !! id = tokenKinds G !! id) /\
    In (tokenKindId G)
       (tokenKindMap.FindEx (tokenKinds (Add G name sig)) sig []) /\
    In (tokenKindId G)
       (tokenKindMap.Find (tokenKinds (Add G name sig)) sig []).
Proof.
  intros G name sig.
  destruct (Add_fields G name sig) as [Hid Hmap].
  assert (Hget : tokenKindMap.index (tokenKinds (Add G name sig))
                   (tokenKindId G)
                 = mkTokenKind (tokenKindId G) name sig).
  { unfold tokenKindMap.index. by rewrite Hmap, lookup_insert_eq. }
  split; [exact Hid|]. split; [exact Hget|]. split; [|split].
  - intros id Hne. by rewrite Hmap, lookup_insert_ne.
  - rewrite FindEx_all. apply filter_In. split.
    + apply In_Ids. rewrite Hmap, lookup_insert_eq. eauto.
    + rewrite Hget. cbn. by apply bool_decide_eq_true_2.
  - rewrite Find_all. apply filter_In. split.
    + apply In_Ids. rewrite Hmap, lookup_insert_eq. eauto.
    + rewrite Hget. cbn. apply strContains_refl.
Qed.

(** ** The running maxima *)

Lemma addAll_cons G d decls :
  addAll G (d :: decls) = addAll (Add G d.1 d.2) decls.
Proof. reflexivity. Qed.

Lemma addAll_maxima G decls :
  0 <= tokenKindSignatureMaxSize G -> 0 <= tokenKindNameMaxSize G ->
  tokenKindSignatureMaxSize (addAll G decls)
  = Z.max (tokenKindSignatureMaxSize G) (maxLen (snd <$> decls)) /\
  tokenKindNameMaxSize (addAll G decls)
  = Z.max (tokenKindNameMaxSize G) (maxLen (fst <$> decls)).
Proof.
  revert G. induction decls as [|d decls IH]; intros G Hs Hn.
  - change (addAll G []) with G. cbn. lia.
  - rewrite addAll_cons.
    destruct (IH (Add G d.1 d.2)) as [-> ->];
      rewrite ?Add_sigMax, ?Add_nameMax; [lia|lia|].
    cbn [fmap list_fmap maxLen foldr]. fold (maxLen (snd <$> decls)).
    fold (maxLen (fst <$> decls)). lia.
Qed.

Lemma addAll_stored_within_maxima G decls :
  (forall id kind, tokenKinds G !! id = Some kind ->
     len (Signature kind) <= tokenKindSignatureMaxSize G /\
     len (Name kind) <= tokenKindNameMaxSize G) ->
  forall id kind, tokenKinds (addAll G decls) !! id = Some kind ->
    len (Signature kind) <= tokenKindSignatureMaxSize (addAll G decls) /\
    len (Name kind) <= tokenKindNameMaxSize (addAll G decls).
Proof.
  revert G. induction decls as [|d decls IH]; intros G HG; [exact HG|].
  rewrite addAll_cons. apply IH. intros id kind.
  destruct (Add_fields G d.1 d.2) as [_ ->].
  rewrite Add_sigMax, Add_nameMax, lookup_insert.
  destruct (decide (tokenKindId G = id)) as [_|_].
  - intros [= <-]. cbn. lia.
  - intros H. apply HG in H. lia.
Qed.

(** X6.  The running maxima ([newKind], [Add], [loadTokens]).  For every
    tokens file, also one long enough for ids to wrap,
    [tokenKindSignatureMaxSize] is the largest signature length over all
    registrations and [tokenKindNameMaxSize] the largest name length; every
    kind in the table has a signature and a name within them, and the
    signature maximum is at least 5, the length of ["&IDEN"]. *)
Theorem loadTokens_running_maxima :
  forall parsed : list (bytes * bytes),
    tokenKindSignatureMaxSize (loadTokens parsed)
    = maxLen (snd <$> registrations parsed) /\
    tokenKindNameMaxSize (loadTokens parsed)
    = maxLen (fst <$> registrations parsed) /\
    5 <= tokenKindSignatureMaxSize (loadTokens parsed) /\
    (forall id kind,
        tokenKinds (loadTokens parsed) !! id = Some kind ->
        len (Signature kind) <= tokenKindSignatureMaxSize (loadTokens parsed)
        /\ len (Name kind) <= tokenKindNameMaxSize (loadTokens parsed)).
Proof.
  intros parsed. rewrite loadTokens_addAll.
  destruct (addAll_maxima initGlobals (registrations parsed)) as [Hs Hn];
    [done|done|].
  assert (Hpos : forall l, 0 <= maxLen l).
  { induction l as [|x l IH]; [done|].
    unfold maxLen. cbn [foldr]. fold (maxLen l). lia. }
  split; [|split; [|split]].
  - rewrite Hs. cbn [tokenKindSignatureMaxSize initGlobals].
    pose proof (Hpos (snd <$> registrations parsed)). lia.
  - rewrite Hn. cbn [tokenKindNameMaxSize initGlobals].
    pose proof (Hpos (fst <$> registrations parsed)). lia.
  - rewrite Hs. unfold registrations. rewrite fmap_app.
    assert (Happ : forall l1 l2, maxLen (l1 ++ l2)
                                 = Z.max (maxLen l1) (maxLen l2)).
    { induction l1 as [|x l1 IH]; intros l2.
      - change (maxLen [] ) with 0. cbn [app]. pose proof (Hpos l2). lia.
      - change (maxLen ((x :: l1) ++ l2))
          with (Z.max (len x) (maxLen (l1 ++ l2))).
        change (maxLen (x :: l1)) with (Z.max (len x) (maxLen l1)).
        rewrite IH. lia. }
    rewrite Happ. change (maxLen (snd <$> reservedKinds)) with 5.
    cbn [tokenKindSignatureMaxSize initGlobals]. lia.
  - apply addAll_stored_within_maxima. intros id kind.
    cbn. by rewrite lookup_empty.
Qed.

(** ** Searching the table *)

Lemma filter_filter_implied {A} (f g : A -> bool) (l : list A) :
  (forall x, f x = true -> g x = true) ->
  List.filter f (List.filter g l) = List.filter f l.
Proof.
  intros Himp. induction l as [|x l IH]; [done|]. cbn.
  destruct (g x) eqn:Hg; cbn.
  - rewrite IH. reflexivity.
  - destruct (f x) eqn:Hf; [|exact IH].
    apply Himp in Hf. congruence.
Qed.

Lemma Compare_Contains s sig :
  tokenSignature.Compare s sig = true -> tokenSignature.Contains s sig = true.
Proof.
  unfold tokenSignature.Compare, tokenSignature.Contains.
  intros ->%bool_decide_eq_true. apply strContains_refl.
Qed.

(** X7.  What a search returns ([Find], [FindEx], [Contains], [Compare]).
    Every id returned by [FindEx(sig, ids...)] has exactly the signature
    [sig], is also returned by [Find(sig, ids...)], and comes from the
    candidates: from [ids] when [ids] is not empty, from the keys of the table
    when it is. *)
Theorem FindEx_returns_exact_candidates :
  forall (tkm : gmap Z TokenKind) (sig : bytes) (ids : list Z) (id : Z),
    In id (tokenKindMap.FindEx tkm sig ids) ->
    Signature (tokenKindMap.index tkm id) = sig /\
    In id (tokenKindMap.Find tkm sig ids) /\
    (ids <> [] -> In id ids) /\
    (ids = [] -> is_Some (tkm !! id)).
Proof.
  intros tkm sig ids id Hin.
  split; [by apply FindEx_exact in Hin|].
  destruct ids as [|i ids].
  - rewrite FindEx_all in Hin. apply filter_In in Hin as [Hkey Hcmp].
    split; [|split; [done|]].
    + rewrite Find_all. apply filter_In. split; [done|].
      by apply Compare_Contains.
    + intros _. by apply In_Ids.
  - rewrite FindEx_among in Hin. apply filter_In in Hin as [Hcand Hcmp].
    split; [|split; [done|done]].
    rewrite Find_among. apply filter_In. split; [done|].
    by apply Compare_Contains.
Qed.

Lemma FindEx_returns_exact_candidates_witness :
  In 1 (tokenKindMap.FindEx (tokenKinds reservedOnly) (b "&IDEN") []) /\
  Signature (tokenKindMap.index (tokenKinds reservedOnly) 1) = b "&IDEN" /\
  is_Some (tokenKinds reservedOnly !! 1).
Proof.
  assert (Hin : In 1 (tokenKindMap.FindEx (tokenKinds reservedOnly)
                        (b "&IDEN") [])).
  { vm_compute. tauto. }
  split; [exact Hin|].
  destruct (FindEx_returns_exact_candidates
              (tokenKinds reservedOnly) (b "&IDEN") [] 1 Hin)
    as (Hsig & _ & _ & Hreg).
  split; [exact Hsig|]. by apply Hreg.
Defined.

(** X8.  A candidate that is not a key ([Find], [FindEx] on a missing key).
    Indexing the table at an unregistered id gives the zero kind, whose
    signature is empty: the searches keep such a candidate exactly when the
    text searched for is empty. *)
Theorem searches_keep_unregistered_candidate_only_for_empty_text :
  forall (tkm : gmap Z TokenKind) (sig : bytes) (id : Z),
    tkm !! id = None ->
    tokenKindMap.Find tkm sig [id]
    = (if bool_decide (sig = []) then [id] else []) /\
    tokenKindMap.FindEx tkm sig [id]
    = (if bool_decide (sig = []) then [id] else []).
Proof.
  intros tkm sig id Hnone.
  rewrite Find_among, FindEx_among. cbn [List.filter].
  unfold tokenKindMap.index. rewrite Hnone.
  cbn [default zeroTokenKind Signature].
  unfold tokenSignature.Contains, tokenSignature.Compare.
  destruct sig as [|c sig]; split; reflexivity.
Qed.

Lemma searches_keep_unregistered_candidate_only_for_empty_text_witness :
  tokenKinds reservedOnly !! 99 = None /\
  tokenKindMap.FindEx (tokenKinds reservedOnly) [] [99] = [99] /\
  tokenKindMap.Find (tokenKinds reservedOnly) (b "x") [99] = [].
Proof.
  assert (Hnone : tokenKinds reservedOnly !! 99 = None)
    by (vm_compute; reflexivity).
  split; [exact Hnone|]. split.
  - exact (proj2 (searches_keep_unregistered_candidate_only_for_empty_text
                    (tokenKinds reservedOnly) [] 99 Hnone)).
  - exact (proj1 (searches_keep_unregistered_candidate_only_for_empty_text
                    (tokenKinds reservedOnly) (b "x") 99 Hnone)).
Defined.

Lemma Find_of_Find tkm sig ids :
  tokenKindMap.Find tkm sig ids <> [] ->
  tokenKindMap.Find tkm sig (tokenKindMap.Find tkm sig ids)
  = tokenKindMap.Find tkm sig ids.
Proof.
  intros Hne.
  set (among := if negb (0 <? len ids) then tokenKindMap.Ids tkm else ids).
  set (c := fun id => tokenSignature.Contains
                        (Signature (tokenKindMap.index tkm id)) sig).
  assert (HF : tokenKindMap.Find tkm sig ids = List.filter c among)
    by reflexivity.
  rewrite HF in *.
  destruct (List.filter c among) as [|i found] eqn:Hfound; [done|].
  rewrite Find_among. fold c. rewrite <- Hfound.
  by apply filter_filter_implied.
Qed.

Lemma FindEx_of_Find tkm sig ids :
  tokenKindMap.Find tkm sig ids <> [] ->
  tokenKindMap.FindEx tkm sig (tokenKindMap.Find tkm sig ids)
  = tokenKindMap.FindEx tkm sig ids.
Proof.
  intros Hne.
  set (among := if negb (0 <? len ids) then tokenKindMap.Ids tkm else ids).
  set (c := fun id => tokenSignature.Contains
                        (Signature (tokenKindMap.index tkm id)) sig).
  set (e := fun id => tokenSignature.Compare
                        (Signature (tokenKindMap.index tkm id)) sig).
  assert (HF : tokenKindMap.Find tkm sig ids = List.filter c among)
    by reflexivity.
  assert (HE : tokenKindMap.FindEx tkm sig ids = List.filter e among)
    by reflexivity.
  rewrite HE, HF in *.
  destruct (List.filter c among) as [|i found] eqn:Hfound; [done|].
  rewrite FindEx_among. fold e. rewrite <- Hfound.
  apply filter_filter_implied. intros x. apply Compare_Contains.
Qed.

(** X9.  Narrowing, then confirming ([Find], [FindEx]).  When
    [Find(sig, ids...)] returns at least one id, searching again among its
    results returns them unchanged, and [FindEx] among its results returns
    what [FindEx(sig, ids...)] returns: narrowing loses no exact match. *)
Theorem narrowing_keeps_exact_matches :
  forall (tkm : gmap Z TokenKind) (sig : bytes) (ids : list Z),
    tokenKindMap.Find tkm sig ids <> [] ->
    tokenKindMap.Find tkm sig (tokenKindMap.Find tkm sig ids)
    = tokenKindMap.Find tkm sig ids /\
    tokenKindMap.FindEx tkm sig (tokenKindMap.Find tkm sig ids)
    = tokenKindMap.FindEx tkm sig ids.
Proof.
  intros tkm sig ids Hne. split.
  - by apply Find_of_Find.
  - by apply FindEx_of_Find.
Qed.

Lemma narrowing_keeps_exact_matches_witness :
  tokenKindMap.Find (tokenKinds withEq) (b "=") [] <> [] /\
  tokenKindMap.FindEx (tokenKinds withEq) (b "=")
    (tokenKindMap.Find (tokenKinds withEq) (b "=") [])
  = tokenKindMap.FindEx (tokenKinds withEq) (b "=") [].
Proof.
  assert (Hne : tokenKindMap.Find (tokenKinds withEq) (b "=") [] <> [])
    by (vm_compute; discriminate).
  split; [exact Hne|].
  exact (proj2 (narrowing_keeps_exact_matches
                  (tokenKinds withEq) (b "=") [] Hne)).
Defined.

(** ** What the look-ahead check answers *)

Lemma hasPrefix_take s t (m : nat) :
  hasPrefix s t = true -> hasPrefix s (take m t) = true.
Proof.
  revert s m. induction t as [|c t IH]; intros s m H.
  - by rewrite take_nil.
  - destruct m as [|m]; [apply hasPrefix_nil|].
    destruct s as [|d s]; [done|]. cbn in *.
    apply andb_true_iff in H as [-> H]. by apply IH.
Qed.

Lemma strContains_take s t (m : nat) :
  strContains s t = true -> strContains s (take m t) = true.
Proof.
  induction s as [|d s IH]; cbn [strContains];
    intros [H|H]%orb_true_iff.
  - by rewrite hasPrefix_take.
  - done.
  - by rewrite hasPrefix_take.
  - rewrite IH by done. apply orb_true_r.
Qed.

Lemma strContains_length s t :
  strContains s t = true -> (length t <= length s)%nat.
Proof.
  induction s as [|d s IH]; cbn [strContains];
    intros [H|H]%orb_true_iff.
  - by apply hasPrefix_length.
  - done.
  - by apply hasPrefix_length.
  - apply IH in H. cbn. lia.
Qed.

(** Candidates whose signatures all contain a longer text: none of them has
    the shorter text as its signature. *)
Lemma FindEx_longer tkm sig t matches :
  matches <> [] ->
  (forall m, In m matches ->
     tokenSignature.Contains (Signature (tokenKindMap.index tkm m)) t = true) ->
  (length sig < length t)%nat ->
  tokenKindMap.FindEx tkm sig matches = [].
Proof.
  intros Hne Hall Hlt. destruct matches as [|i matches]; [done|].
  rewrite FindEx_among. apply filter_none. intros m Hm.
  unfold tokenSignature.Compare. apply bool_decide_eq_false. intros Heq.
  apply Hall, strContains_length in Hm. rewrite Heq in Hm. lia.
Qed.

(** ... and narrowing them by a prefix of that text keeps them all. *)
Lemma Find_keeps tkm t (k : nat) matches :
  matches <> [] ->
  (forall m, In m matches ->
     tokenSignature.Contains (Signature (tokenKindMap.index tkm m)) t = true) ->
  tokenKindMap.Find tkm (take k t) matches = matches.
Proof.
  intros Hne Hall. destruct matches as [|i matches]; [done|].
  rewrite Find_among. apply filter_all. intros m Hm.
  by apply strContains_take, Hall.
Qed.

Lemma Find_of_Find_all tkm sig :
  tokenKindMap.Find tkm sig (tokenKindMap.Find tkm sig [])
  = tokenKindMap.Find tkm sig [].
Proof.
  destruct (tokenKindMap.Find tkm sig []) as [|i found] eqn:Hf; [done|].
  rewrite <- Hf. apply Find_of_Find. by rewrite Hf.
Qed.

Lemma FindEx_of_Find_all tkm sig :
  tokenKindMap.FindEx tkm sig (tokenKindMap.Find tkm sig [])
  = tokenKindMap.FindEx tkm sig [].
Proof.
  destruct (tokenKindMap.Find tkm sig []) as [|i found] eqn:Hf; [done|].
  rewrite <- Hf. apply FindEx_of_Find. by rewrite Hf.
Qed.

Lemma FindEx_none_of_Find_none tkm sig :
  tokenKindMap.Find tkm sig [] = [] -> tokenKindMap.FindEx tkm sig [] = [].
Proof.
  rewrite Find_all, FindEx_all. intros Hf. apply filter_none. intros x Hx.
  destruct (tokenSignature.Compare _ sig) eqn:Hc; [|done].
  apply Compare_Contains in Hc.
  assert (Hin : In x (List.filter
                        (fun id => tokenSignature.Contains
                           (Signature (tokenKindMap.index tkm id)) sig)
                        (tokenKindMap.Ids tkm)))
    by (by apply filter_In).
  by rewrite Hf in Hin.
Qed.

(** Some signature contains a text: some signature contains its prefixes. *)
Lemma Find_prefix_some tkm t (k : nat) :
  tokenKindMap.Find tkm t [] <> [] ->
  tokenKindMap.Find tkm (take k t) [] <> [].
Proof.
  rewrite !Find_all.
  destruct (List.filter _ (tokenKindMap.Ids tkm)) as [|i found] eqn:Hf;
    [done|].
  intros _ Hnone.
  assert (Hi : In i (i :: found)) by (by left).
  rewrite <- Hf in Hi. apply filter_In in Hi as [Hkey Hc].
  assert (Hin : In i (List.filter
                        (fun id => tokenSignature.Contains
                           (Signature (tokenKindMap.index tkm id)) (take k t))
                        (tokenKindMap.Ids tkm))).
  { apply filter_In. split; [done|]. by apply strContains_take. }
  by rewrite Hnone in Hin.
Qed.

(** The loop of [isToken], entered with candidates that all contain the
    text one character longer than the current one: it ends with no exact
    match. *)
Lemma isToken_loop_narrowed G (n : nat) line (j : Z) view matches :
  len line < 2 ^ 64 ->
  1 <= j -> j + 1 <= len line -> j <= Z.of_nat n ->
  matches <> [] ->
  (forall m, In m matches ->
     tokenSignature.Contains
       (Signature (tokenKindMap.index (tokenKinds G) m))
       (take (Z.to_nat (j + 1)) line) = true) ->
  exists sig' matches',
    isToken_loop G n line j (take (Z.to_nat j) line) view matches
    = Done (sig', matches') /\
    tokenKindMap.FindEx (tokenKinds G) sig' matches' = [].
Proof.
  intros Hlen. revert j view matches.
  induction n as [|n IH]; intros j view matches Hj Hj1 Hn Hne Hall; [lia|].
  assert (Hshort : (length (take (Z.to_nat j) line)
                    < length (take (Z.to_nat (j + 1)) line))%nat).
  { rewrite !length_take. unfold len in *. lia. }
  cbn [isToken_loop].
  rewrite (bool_decide_eq_false_2 (len matches = 0))
    by (destruct matches; [done|unfold len; cbn [length]; lia]).
  cbn [orb]. destruct (bool_decide (view = b " ")); cbn [negb].
  2: { eexists _, _. split; [reflexivity|].
       by apply (FindEx_longer _ _ (take (Z.to_nat (j + 1)) line)). }
  assert (Hkeep : tokenKindMap.Find (tokenKinds G) (take (Z.to_nat j) line)
                    matches = matches).
  { replace (take (Z.to_nat j) line)
      with (take (Z.to_nat j) (take (Z.to_nat (j + 1)) line))
      by (rewrite take_take; f_equal; lia).
    by apply Find_keeps. }
  rewrite Hkeep.
  unfold wrap64. rewrite !(Z.mod_small (j - 1)) by lia.
  destruct (bool_decide (j - 1 = 0)) eqn:Hone.
  { eexists _, _. split; [reflexivity|].
    by apply (FindEx_longer _ _ (take (Z.to_nat (j + 1)) line)). }
  apply bool_decide_eq_false in Hone.
  unfold sliceTo. rewrite slice_prefix by lia. cbn [mbind outcome_bind].
  rewrite (Z.mod_small (j - 1 - 1)) by lia.
  destruct (slice_in_range line (j - 1 - 1) (j - 1)) as [view' ->];
    [lia|lia|].
  cbn [mbind outcome_bind].
  apply IH; [lia|lia|lia|done|].
  intros m Hm. apply Hall in Hm.
  replace (take (Z.to_nat (j - 1 + 1)) line)
    with (take (Z.to_nat j) (take (Z.to_nat (j + 1)) line))
    by (rewrite take_take; f_equal; lia).
  by apply strContains_take.
Qed.

(** The loop of [isToken], entered with no candidate at a text of two
    characters or more: it shortens the text until some signature contains
    it. *)
Lemma isToken_loop_searching G (n : nat) line (k : Z) view :
  len line < 2 ^ 64 ->
  2 <= k <= len line -> k <= Z.of_nat n ->
  exists sig' matches',
    isToken_loop G n line k (take (Z.to_nat k) line) view []
    = Done (sig', matches') /\
    (0 <? len (tokenKindMap.FindEx (tokenKinds G) sig' matches'))
    = bool_decide (tokenKindMap.Find (tokenKinds G) (take 2 line) [] = [])
      && (0 <? len (tokenKindMap.FindEx (tokenKinds G) (take 1 line) [])).
Proof.
  intros Hlen. revert k view.
  induction n as [|n IH]; intros k view Hk Hn; [lia|].
  cbn [isToken_loop].
  rewrite (bool_decide_eq_true_2 (len (@nil Z) = 0)) by reflexivity.
  cbn [orb negb].
  unfold wrap64. rewrite !(Z.mod_small (k - 1)) by lia.
  rewrite (bool_decide_eq_false_2 (k - 1 = 0)) by lia.
  unfold sliceTo. rewrite slice_prefix by lia. cbn [mbind outcome_bind].
  rewrite (Z.mod_small (k - 1 - 1)) by lia.
  destruct (slice_in_range line (k - 1 - 1) (k - 1)) as [view' ->];
    [lia|lia|].
  cbn [mbind outcome_bind].
  destruct (tokenKindMap.Find (tokenKinds G) (take (Z.to_nat k) line) [])
    as [|i found] eqn:Hfind.
  - destruct (decide (k = 2)) as [->|Hk2].
    + change (Z.to_nat (2 - 1)) with 1%nat.
      change (Z.to_nat 2) with 2%nat in Hfind. rewrite Hfind.
      rewrite bool_decide_eq_true_2 by done. cbn [andb].
      destruct n as [|n]; [lia|]. cbn [isToken_loop].
      rewrite (bool_decide_eq_true_2 (len (@nil Z) = 0)) by reflexivity.
      cbn [orb negb]. change (wrap64 (2 - 1 - 1)) with 0.
      rewrite bool_decide_eq_true_2 by done.
      eexists _, _. split; [reflexivity|].
      by rewrite FindEx_of_Find_all.
    + apply IH; lia.
  - assert (Hsome : tokenKindMap.Find (tokenKinds G) (take 2 line) [] <> []).
    { replace (take 2 line) with (take 2 (take (Z.to_nat k) line))
        by (rewrite take_take; f_equal; lia).
      apply Find_prefix_some. by rewrite Hfind. }
    rewrite (bool_decide_eq_false_2 _ Hsome). cbn [andb].
    destruct (isToken_loop_narrowed G n line (k - 1) view' (i :: found))
      as (sig' & matches' & Hloop & Hnone); [done|lia|lia|lia|done| |].
    + intros m Hm. rewrite <- Hfind, Find_all in Hm.
      apply filter_In in Hm as [_ Hm].
      by replace (k - 1 + 1) with k by lia.
    + exists sig', matches'. split; [exact Hloop|]. by rewrite Hnone.
Qed.

(** What [isToken] answers, in terms of the two searches. *)
Lemma isToken_value G line :
  len line < 2 ^ 64 ->
  line <> [] \/ tokenKindMap.Ids (tokenKinds G) <> [] ->
  isToken G line
  = Done ((0 <? len (tokenKindMap.FindEx (tokenKinds G) line []))
          || bool_decide (tokenKindMap.Find (tokenKinds G) (take 2 line) []
                          = [])
             && (0 <? len (tokenKindMap.FindEx (tokenKinds G)
                             (take 1 line) []))).
Proof.
  intros Hlen Hne. pose proof (len_nonneg line) as Hnn.
  destruct line as [|c [|d rest]].
  - (* the empty text, in a table that is not empty *)
    destruct Hne as [Hne|Hne]; [done|].
    rewrite isToken_no_loop; [|done|by rewrite Find_empty_text|done].
    rewrite FindEx_of_Find_all. cbn [take]. rewrite Find_empty_text.
    rewrite (bool_decide_eq_false_2 _ Hne). cbn [andb].
    by rewrite orb_false_r.
  - (* one character *)
    cbn [take].
    assert (Hex : forall (A : Type) (x y : A), x = y -> Done x = Done y)
      by (intros; by f_equal).
    unfold isToken. cbv zeta. rewrite calcStep_len.
    change (wrap64 (len [c])) with 1.
    change (calcViewR [c] 1 1) with (Done [c] : outcome bytes).
    cbn [mbind outcome_bind isToken_loop].
    change (wrap64 (1 - 1)) with 0.
    rewrite (bool_decide_eq_true_2 (0 = 0)) by done.
    destruct (negb _); cbn [mbind outcome_bind]; f_equal.
    + rewrite FindEx_of_Find_all.
      by destruct (0 <? _), (bool_decide _).
    + rewrite Find_of_Find_all, FindEx_of_Find_all.
      by destruct (0 <? _), (bool_decide _).
  - (* two characters or more *)
    set (line := c :: d :: rest) in *.
    assert (Hlen2 : 2 <= len line)
      by (unfold len, line; cbn [length]; lia).
    destruct (tokenKindMap.Find (tokenKinds G) line []) as [|i found]
      eqn:Hfind.
    + unfold isToken. cbv zeta. rewrite calcStep_len.
      replace (wrap64 (len line)) with (len line)
        by (unfold wrap64; by rewrite Z.mod_small by lia).
      assert (Hview : calcViewR line (len line) 1 = Done []).
      { unfold calcViewR, wrap64. rewrite Z.mod_small by lia.
        destruct (Z.gtb_spec (len line - 1) 0); [|lia].
        by rewrite slice_prefix by lia. }
      rewrite Hview, Hfind. cbn [mbind outcome_bind].
      destruct (isToken_loop_searching G (S (length line)) line (len line) [])
        as (sig' & matches' & Hloop & Hres);
        [done|lia|unfold len; lia|].
      replace (take (Z.to_nat (len line)) line) with line in Hloop
        by (rewrite take_ge; [done|unfold len; lia]).
      rewrite Hloop. cbn [mbind outcome_bind]. rewrite Hres.
      by rewrite (FindEx_none_of_Find_none _ _ Hfind).
    + rewrite isToken_no_loop; [|done|by rewrite Hfind|done].
      rewrite FindEx_of_Find_all.
      assert (Hsome : tokenKindMap.Find (tokenKinds G) (take 2 line) [] <> []).
      { apply Find_prefix_some. by rewrite Hfind. }
      rewrite (bool_decide_eq_false_2 _ Hsome). cbn [andb].
      by rewrite orb_false_r.
Qed.

Lemma FindEx_some tkm sig :
  (0 <? len (tokenKindMap.FindEx tkm sig [])) = true <->
  exists id kind, tkm !! id = Some kind /\ Signature kind = sig.
Proof.
  rewrite FindEx_all. split.
  - destruct (List.filter _ _) as [|i found] eqn:Hf; [done|]. intros _.
    assert (Hi : In i (i :: found)) by (by left).
    rewrite <- Hf in Hi. apply filter_In in Hi as [Hkey Hc].
    apply In_Ids in Hkey as [kind Hkind]. exists i, kind. split; [done|].
    unfold tokenSignature.Compare, tokenKindMap.index in Hc.
    rewrite Hkind in Hc. by apply bool_decide_eq_true in Hc.
  - intros (id & kind & Hkind & Hsig).
    assert (Hin : In id (List.filter
                           (fun id => tokenSignature.Compare
                              (Signature (tokenKindMap.index tkm id)) sig)
                           (tokenKindMap.Ids tkm))).
    { apply filter_In. split; [apply In_Ids; eauto|].
      unfold tokenSignature.Compare, tokenKindMap.index. rewrite Hkind.
      by apply bool_decide_eq_true. }
    destruct (List.filter _ _); [done|].
    apply Z.ltb_lt. unfold len. cbn [length]. lia.
Qed.

Lemma Find_none tkm sig :
  tokenKindMap.Find tkm sig [] = [] <->
  forall id kind, tkm !! id = Some kind ->
    tokenSignature.Contains (Signature kind) sig = false.
Proof.
  rewrite Find_all. split.
  - intros Hnone id kind Hkind.
    destruct (tokenSignature.Contains (Signature kind) sig) eqn:Hc; [|done].
    assert (Hin : In id (List.filter
                           (fun id => tokenSignature.Contains
                              (Signature (tokenKindMap.index tkm id)) sig)
                           (tokenKindMap.Ids tkm))).
    { apply filter_In. split; [apply In_Ids; eauto|].
      unfold tokenKindMap.index. by rewrite Hkind. }
    by rewrite Hnone in Hin.
  - intros Hall. apply filter_none. intros id [kind Hkind]%In_Ids.
    unfold tokenKindMap.index. rewrite Hkind. by apply (Hall id).
Qed.

(** X10.  What [isToken] answers ([isToken], [calcStep], [calcViewR]).
    On every text when the table is not empty, and on every non-empty text
    otherwise, [isToken] returns, and it answers true in exactly two cases:
    the text is the signature of a registered kind; or the first character of
    the text is such a signature and no registered signature contains the
    first two characters of the text. *)
Theorem isToken_true_iff :
  forall (G : Globals) (line : bytes),
    len line < 2 ^ 64 ->
    line <> [] \/ tokenKindMap.Ids (tokenKinds G) <> [] ->
    exists tok : bool,
      isToken G line = Done tok /\
      (tok = true <->
       (exists id kind,
           tokenKinds G !! id = Some kind /\ Signature kind = line) \/
       ((exists id kind,
            tokenKinds G !! id = Some kind /\ Signature kind = take 1 line) /\
        (forall id kind,
            tokenKinds G !! id = Some kind ->
            tokenSignature.Contains (Signature kind) (take 2 line) = false))).
Proof.
  intros G line Hlen Hne. eexists. split; [by apply isToken_value|].
  rewrite orb_true_iff, andb_true_iff, bool_decide_eq_true.
  rewrite !FindEx_some, Find_none. tauto.
Qed.

Lemma isToken_true_iff_witness :
  isToken withEq (b "=x") = Done true /\
  (exists id kind,
      tokenKinds withEq !! id = Some kind /\ Signature kind = b "=") /\
  (forall id kind,
      tokenKinds withEq !! id = Some kind ->
      tokenSignature.Contains (Signature kind) (b "=x") = false).
Proof.
  assert (Hlen : len (b "=x") < 2 ^ 64) by (vm_compute; reflexivity).
  assert (Hne : b "=x" <> [] \/ tokenKindMap.Ids (tokenKinds withEq) <> [])
    by (left; discriminate).
  destruct (isToken_true_iff withEq (b "=x") Hlen Hne) as (tok & Htok & Hiff).
  assert (Hrun : isToken withEq (b "=x") = Done true)
    by (vm_compute; reflexivity).
  split; [exact Hrun|].
  rewrite Hrun in Htok. injection Htok as <-.
  destruct (proj1 Hiff eq_refl) as [(id & kind & Hk & Hsig)|H]; [|exact H].
  exfalso.
  assert (Hall : forallb (fun e => negb (bool_decide (Signature e.2 = b "=x")))
                   (map_to_list (tokenKinds withEq)) = true)
    by (vm_compute; reflexivity).
  pose proof (forall_registered (tokenKinds withEq)
                (fun _ k => negb (bool_decide (Signature k = b "=x")))
                Hall id kind Hk) as Hno.
  cbn beta in Hno. by rewrite bool_decide_eq_true_2 in Hno.
Defined.

(** ** Views *)

(** X11.  The forward view ([calcView]).  For a position and a step whose sum
    is below 2^63: when the position is within the line, the view is the
    [step] bytes that follow it, fewer where the line ends first (the end is
    clamped); when the position is past the end of the line, the slice is out
    of range and the call panics (the start is not clamped). *)
Theorem calcView_clamps_end_only :
  forall (line : bytes) (pos step : Z),
    0 <= pos -> 0 <= step -> pos + step < 2 ^ 63 ->
    calcView line pos step
    = if pos <=? len line
      then Done (take (Z.to_nat step) (drop (Z.to_nat pos) line))
      else Panic.
Proof.
  intros line pos step Hpos Hstep Hsum. pose proof (len_nonneg line) as Hnn.
  unfold calcView, wrap64, toInt, sliceFrom. rewrite Z.mod_small by lia.
  replace (pos + step <? 2 ^ 63) with true by (symmetry; apply Z.ltb_lt; lia).
  unfold slice.
  replace (0 <=? pos) with true by (symmetry; apply Z.leb_le; lia).
  replace (len line <=? len line) with true by (symmetry; apply Z.leb_le; lia).
  replace (pos <=? pos + step) with true by (symmetry; apply Z.leb_le; lia).
  cbn [andb]. rewrite andb_true_r.
  destruct (Z.gtb_spec (pos + step) (len line)) as [Hgt|Hle];
    destruct (Z.leb_spec pos (len line)) as [Hin|Hout].
  - f_equal. unfold len in *.
    rewrite (take_ge (drop (Z.to_nat pos) line) (Z.to_nat step))
      by (rewrite length_drop; lia).
    apply take_ge. rewrite length_drop. lia.
  - reflexivity.
  - replace (pos + step <=? len line) with true
      by (symmetry; apply Z.leb_le; lia).
    do 3 f_equal. lia.
  - lia.
Qed.

Lemma calcView_clamps_end_only_witness :
  calcView (b "ab==") 2 5 = Done (b "==") /\
  calcView (b "ab==") 5 1 = Panic.
Proof.
  split.
  - apply (calcView_clamps_end_only (b "ab==") 2 5); lia.
  - apply (calcView_clamps_end_only (b "ab==") 5 1); lia.
Defined.

(** X12.  The backward view ([calcViewR]).  For a position and a step below
    2^64, the call returns the empty text whenever the two differ (their
    unsigned difference is then above 0).  When they are equal it returns the
    first [pos] bytes of the line, and panics if the line is shorter. *)
Theorem calcViewR_empty_unless_pos_is_step :
  forall (line : bytes) (pos step : Z),
    0 <= pos < 2 ^ 64 -> 0 <= step < 2 ^ 64 ->
    calcViewR line pos step
    = if bool_decide (pos = step)
      then (if pos <=? len line then Done (take (Z.to_nat pos) line)
            else Panic)
      else Done [].
Proof.
  intros line pos step Hpos Hstep. pose proof (len_nonneg line) as Hnn.
  unfold calcViewR, wrap64.
  destruct (bool_decide (pos = step)) eqn:Heq.
  - apply bool_decide_eq_true in Heq as <-.
    rewrite Z.sub_diag. change (0 mod 2 ^ 64) with 0. cbn [Z.gtb Z.compare].
    destruct (Z.leb_spec pos (len line)).
    + by rewrite slice_prefix by lia.
    + unfold slice.
      replace (pos <=? len line) with false
        by (symmetry; apply Z.leb_gt; lia).
      by rewrite andb_false_r.
  - apply bool_decide_eq_false in Heq.
    assert (Hd : 0 < (pos - step) mod 2 ^ 64).
    { destruct (Z.lt_ge_cases pos step).
      - replace ((pos - step) mod 2 ^ 64) with (pos - step + 2 ^ 64); [lia|].
        apply Z.mod_unique with (q := -1); lia.
      - rewrite Z.mod_small by lia. lia. }
    destruct (Z.gtb_spec ((pos - step) mod 2 ^ 64) 0); [|lia].
    by rewrite slice_prefix by lia.
Qed.

Lemma calcViewR_empty_unless_pos_is_step_witness :
  calcViewR (b "abc") 3 1 = Done [] /\
  calcViewR (b "abc") 2 2 = Done (b "ab") /\
  calcViewR (b "abc") 4 4 = Panic.
Proof.
  split; [|split].
  - apply (calcViewR_empty_unless_pos_is_step (b "abc") 3 1); lia.
  - apply (calcViewR_empty_unless_pos_is_step (b "abc") 2 2); lia.
  - apply (calcViewR_empty_unless_pos_is_step (b "abc") 4 4); lia.
Defined.

(** ** The tokens of a line *)

(** The id that [findToken] returns is one of the candidates it was given,
    a key of the table, or the generic id. *)
Lemma findToken_result_id G (fuel : nat) line step ids id sig :
  findToken G fuel line step ids = Done (id, sig) ->
  (forall i, In i ids -> i = 1 \/ is_Some (tokenKinds G !! i)) ->
  id = 1 \/ is_Some (tokenKinds G !! id).
Proof.
  revert step ids.
  induction fuel as [|fuel IH]; intros step ids; [done|].
  rewrite findToken_S.
  destruct (calcView line 0 step) as [view| |] eqn:Hview; [|done|done].
  cbn [mbind outcome_bind]. intros Hft Hids.
  assert (Hcand : forall i,
             In i (if bool_decide (len ids = 0)
                   then tokenKindMap.Find (tokenKinds G) view ids else ids) ->
             i = 1 \/ is_Some (tokenKinds G !! i)).
  { intros i. destruct ids as [|i0 ids]; [|by apply Hids].
    rewrite bool_decide_eq_true_2 by done. rewrite Find_all.
    intros [Hkey _]%filter_In. right. by apply In_Ids. }
  destruct (if bool_decide (len ids = 0) then _ else _) as [|i [|j rest]].
  - injection Hft as <- <-. by left.
  - destruct (tokenKindMap.FindEx (tokenKinds G) view [i]) as [|id0 found]
      eqn:Hex.
    + apply (IH _ _ Hft). intros i0 [].
    + injection Hft as <- <-. apply Hcand.
      assert (Hin : In id0 (id0 :: found)) by (by left).
      rewrite <- Hex, FindEx_among in Hin.
      by apply filter_In in Hin as [Hin _].
  - destruct (calcView line step 1) as [ahead| |]; [|done|done].
    cbn [mbind outcome_bind] in Hft.
    destruct (isToken G ahead) as [tok| |]; [|done|done].
    cbn [mbind outcome_bind] in Hft.
    destruct (negb tok); [|by apply (IH _ _ Hft)].
    apply (IH _ _ Hft). intros i0.
    rewrite FindEx_among.
    destruct (bool_decide _).
    + rewrite in_app_iff. intros [[Hin _]%filter_In|[<-|[]]];
        [by apply Hcand|by left].
    + intros [Hin _]%filter_In. by apply Hcand.
Qed.

(** An iteration of the loop of [TokenizeLine] that appends a token with an
    empty text leaves [pos] where it was: the loop never ends. *)
Lemma TokenizeLine_loop_stuck G (f0 : nat) line lineNo pos rest id sig :
  0 <= pos < 2 ^ 64 ->
  (pos <? wrap64 (len line)) = true ->
  sliceFrom line pos = Done rest ->
  findToken G f0 rest 1 [] = Done (id, sig) ->
  (if bool_decide (id = 1) then findIdenToken G sig else Done sig) = Done [] ->
  forall (f : nat) tokens toks,
    TokenizeLine_loop G f line lineNo pos tokens <> Done toks.
Proof.
  intros Hpos Hlt Hrest Hft Hsig f.
  induction f as [|f IH]; intros tokens toks.
  - rewrite TokenizeLine_loop_O, Hlt. discriminate.
  - rewrite TokenizeLine_loop_S, Hlt, Hrest. cbn [mbind outcome_bind].
    destruct (findToken G (S f) rest 1 []) as [[id' sig']| |] eqn:Hft';
      [|discriminate|discriminate].
    assert (Hsame : findToken G (S f) rest 1 [] = findToken G f0 rest 1 []).
    { destruct (le_lt_dec f0 (S f)).
      - apply findToken_fuel_mono; [done|]. by rewrite Hft.
      - symmetry. apply findToken_fuel_mono; [lia|]. by rewrite Hft'. }
    rewrite Hft', Hft in Hsame. injection Hsame as -> ->.
    change (Done (id, sig) ≫= ?k) with (k (id, sig)). cbv beta iota.
    destruct (bool_decide (id = 1)); [rewrite Hsig|injection Hsig as ->];
      cbn [mbind outcome_bind];
      change (len (@nil ascii)) with 0; rewrite Z.add_0_r;
      unfold wrap64 at 1; rewrite Z.mod_small by lia; apply IH.
Qed.

Lemma TokenizeLine_loop_layout G (fuel : nat) line lineNo pos tokens toks :
  len line < 2 ^ 64 ->
  0 <= pos <= len line ->
  TokenizeLine_loop G fuel line lineNo pos tokens = Done toks ->
  exists new,
    toks = tokens ++ new /\
    forall before t after,
      new = before ++ t :: after ->
      LineNo t = lineNo /\
      Position t = pos + len (texts before) + 1 /\
      Symbol t <> [] /\
      (Kind t = tokenKindMap.Get (tokenKinds G) 1 \/
       Signature (Kind t) = Symbol t /\
       exists id, tokenKinds G !! id = Some (Kind t)).
Proof.
  intros Hlen. pose proof (len_nonneg line) as Hnn. revert pos tokens.
  induction fuel as [|fuel IH]; intros pos tokens Hpos.
  - rewrite TokenizeLine_loop_O. destruct (_ <? _); [done|].
    intros [= <-]. exists []. split; [by rewrite app_nil_r|].
    intros [|? ?] ? ? [=].
  - rewrite TokenizeLine_loop_S.
    destruct (pos <? wrap64 (len line)) eqn:Hlt.
    2: { intros [= <-]. exists []. split; [by rewrite app_nil_r|].
         intros [|? ?] ? ? [=]. }
    assert (Hlt' : pos < len line).
    { apply Z.ltb_lt in Hlt. unfold wrap64 in Hlt.
      by rewrite Z.mod_small in Hlt by lia. }
    destruct (sliceFrom line pos) as [rest| |] eqn:Hrest; [|done|done].
    cbn [mbind outcome_bind].
    destruct (findToken G (S fuel) rest 1 []) as [[id sig]| |] eqn:Hft;
      [|done|done].
    cbn [mbind outcome_bind].
    destruct (if bool_decide (id = 1) then _ else _) as [sig'| |] eqn:Hs;
      [|done|done].
    cbn [mbind outcome_bind]. intros Hloop.
    destruct (decide (sig' = [])) as [->|Hsig'].
    { exfalso.
      apply (TokenizeLine_loop_stuck G (S fuel) line lineNo pos rest id sig
               ltac:(lia) Hlt Hrest Hft Hs (S fuel) tokens toks).
      rewrite TokenizeLine_loop_S, Hlt, Hrest. cbn [mbind outcome_bind].
      rewrite Hft. cbn [mbind outcome_bind]. rewrite Hs. exact Hloop. }
    assert (Hsub : (length sig' <= length rest)%nat).
    { assert (exists n : nat, sig = take n rest) as [n Hn].
      { apply findToken_result in Hft as [[_ ->]|[_ Hpre]]; [|done].
        exists (length rest). by rewrite take_ge. }
      destruct (bool_decide (id = 1)).
      - apply findIdenToken_prefix in Hs as [m ->]. rewrite Hn.
        rewrite take_take, length_take. lia.
      - injection Hs as <-. rewrite Hn, length_take. lia. }
    assert (Hrl : length rest = (length line - Z.to_nat pos)%nat).
    { apply slice_Done in Hrest as (_ & _ & ->).
      rewrite length_take, length_drop. unfold len. lia. }
    assert (Hnext : wrap64 (pos + len sig') = pos + len sig').
    { unfold wrap64, len in *. rewrite Z.mod_small; lia. }
    rewrite Hnext in Hloop.
    apply IH in Hloop as (new & -> & Hnew); [|unfold len in *; lia].
    eexists (_ :: new). split; [by rewrite <- app_assoc|].
    intros [|t0 before] t after [= Ht Hafter].
    + subst t. cbn [TokenKindM.New LineNo Position Symbol Kind].
      split; [done|]. split.
      { unfold wrap64. rewrite Z.mod_small by lia.
        change (len (texts [])) with 0. lia. }
      split; [done|].
      destruct (bool_decide (id = 1)) eqn:Hid.
      * apply bool_decide_eq_true in Hid as ->. by left.
      * apply bool_decide_eq_false in Hid. injection Hs as <-. right.
        apply findToken_result in Hft as Hres.
        destruct Hres as [[-> _]|[Hsig _]]; [done|].
        split; [exact Hsig|].
        apply findToken_result_id in Hft as [->|[kind Hkind]];
          [done| |intros i []].
        exists id. unfold tokenKindMap.Get, tokenKindMap.index.
        by rewrite Hkind.
    + subst t0. destruct (Hnew before t after Hafter) as (H1 & H2 & H3 & H4).
      split; [done|]. split; [|done].
      rewrite H2. unfold texts. cbn [fmap list_fmap concat Symbol].
      change (TokenKindM.New ?k ?l ?p ?s) with (mkTokenObject k l p s).
      cbn [Symbol]. unfold len. rewrite length_app. lia.
Qed.

(** X13.  The layout of the tokens of a line ([TokenizeLine], [findToken],
    [findIdenToken], [New], [Get]).  Whenever [TokenizeLine] returns, every
    token carries the line number given, its [Position] is one more than the
    total length of the texts of the tokens before it, its text is not
    empty, and its kind is either the entry of the generic id 1 or a
    registered kind whose signature is exactly the text of the token. *)
Theorem TokenizeLine_token_layout :
  forall (G : Globals) (fuel : nat) (line : bytes) (lineNo : Z)
         (toks : list TokenObject),
    len line < 2 ^ 64 ->
    TokenizeLine G fuel line lineNo = Done toks ->
    forall before t after,
      toks = before ++ t :: after ->
      LineNo t = lineNo /\
      Position t = len (texts before) + 1 /\
      Symbol t <> [] /\
      (Kind t = tokenKindMap.Get (tokenKinds G) 1 \/
       Signature (Kind t) = Symbol t /\
       exists id, tokenKinds G !! id = Some (Kind t)).
Proof.
  intros G fuel line lineNo toks Hlen Hrun before t after Hsplit.
  unfold TokenizeLine in Hrun.
  apply TokenizeLine_loop_layout in Hrun as (new & Hnew & Hall);
    [|done|pose proof (len_nonneg line); lia].
  cbn [app] in Hnew. subst new.
  destruct (Hall before t after Hsplit) as (H1 & H2 & H3 & H4).
  split; [done|]. split; [by rewrite H2|]. by split.
Qed.

Lemma TokenizeLine_token_layout_witness :
  TokenizeLine withEq 4 (b "x==y") 7
  = Done ([mkTokenObject (mkTokenKind 1 (b "GENIDEN") (b "&IDEN")) 7 1 (b "x=")]
          ++ mkTokenObject (mkTokenKind 7 (b "EQ") (b "=")) 7 3 (b "=")
          :: [mkTokenObject (mkTokenKind 1 (b "GENIDEN") (b "&IDEN"))
                            7 4 (b "y")]) /\
  LineNo (mkTokenObject (mkTokenKind 7 (b "EQ") (b "=")) 7 3 (b "=")) = 7 /\
  Position (mkTokenObject (mkTokenKind 7 (b "EQ") (b "=")) 7 3 (b "="))
  = len (texts [mkTokenObject (mkTokenKind 1 (b "GENIDEN") (b "&IDEN"))
                              7 1 (b "x=")]) + 1.
Proof.
  assert (Hlen : len (b "x==y") < 2 ^ 64) by (vm_compute; reflexivity).
  assert (Hrun :
    TokenizeLine withEq 4 (b "x==y") 7
    = Done ([mkTokenObject (mkTokenKind 1 (b "GENIDEN") (b "&IDEN"))
                           7 1 (b "x=")]
            ++ mkTokenObject (mkTokenKind 7 (b "EQ") (b "=")) 7 3 (b "=")
            :: [mkTokenObject (mkTokenKind 1 (b "GENIDEN") (b "&IDEN"))
                              7 4 (b "y")]))
    by (vm_compute; reflexivity).
  split; [exact Hrun|].
  destruct (TokenizeLine_token_layout withEq 4%nat (b "x==y") 7 _ Hlen Hrun
              _ _ _ eq_refl) as (H1 & H2 & _).
  split; [exact H1|exact H2].
Defined.

(** ** Words and spaces *)

Lemma hasPrefix_In s t (c : ascii) :
  hasPrefix s t = true -> In c t -> In c s.
Proof.
  revert s. induction t as [|d t IH]; intros s H Hc; [done|].
  destruct s as [|e s]; [done|]. cbn in H.
  apply andb_true_iff in H as [He H].
  apply bool_decide_eq_true in He as ->.
  destruct Hc as [->|Hc]; [by left|]. right. by apply IH.
Qed.

Lemma strContains_In s t (c : ascii) :
  strContains s t = true -> In c t -> In c s.
Proof.
  induction s as [|d s IH]; cbn [strContains];
    intros [H|H]%orb_true_iff Hc.
  - by apply (hasPrefix_In _ t).
  - done.
  - by apply (hasPrefix_In _ t).
  - right. by apply IH.
Qed.

(** [findIdenToken] on a text of two characters or more: it returns, and
    returns the shortest non-empty prefix after which [isToken] holds of the
    rest, the whole text when there is none. *)
Lemma findIdenToken_runs G line :
  2 <= len line < 2 ^ 64 ->
  exists k : nat,
    findIdenToken G line = Done (take k line) /\
    (1 <= k <= length line)%nat /\
    ((k < length line)%nat -> isToken G (drop k line) = Done true) /\
    (forall q : nat, (1 <= q < k)%nat -> isToken G (drop q line) = Done false).
Proof.
  intros Hlen. unfold findIdenToken.
  rewrite bool_decide_eq_false_2 by lia.
  unfold sliceTo, sliceFrom. rewrite slice_prefix by lia.
  cbn [mbind outcome_bind].
  destruct (slice_in_range line 1 (len line)) as [look Hlook]; [lia|lia|].
  rewrite Hlook. cbn [mbind outcome_bind].
  apply slice_Done in Hlook as (_ & _ & ->).
  rewrite (take_ge (drop (Z.to_nat 1) line))
    by (rewrite length_drop; unfold len; lia).
  destruct (findIdenToken_loop_returns G (S (length line)) line 1
              (take (Z.to_nat 1) line) (drop (Z.to_nat 1) line))
    as [v Hv]; [lia|lia|unfold len; lia| | |].
  - intros Hnil. apply (f_equal length) in Hnil.
    rewrite length_drop in Hnil. unfold len in *. cbn [length] in Hnil. lia.
  - unfold len in *. rewrite length_drop. lia.
  - rewrite Hv.
    apply (findIdenToken_loop_first G _ line 1 1%nat) in Hv
      as (k & Hk & -> & Htrue & Hfalse);
      [|unfold len in *; lia|lia|reflexivity|intros q Hq; lia].
    exists k. split; [done|]. split; [done|]. by split.
Qed.

Lemma isToken_alien G (c : ascii) s :
  alien (tokenKinds G) c -> len (c :: s) < 2 ^ 64 ->
  isToken G (c :: s) = Done false.
Proof.
  intros Hc Hlen. rewrite isToken_value; [|done|by left].
  assert (Hnone : forall t, In c t ->
            tokenKindMap.FindEx (tokenKinds G) t [] = []).
  { intros t Ht. apply FindEx_none_of_Find_none, Find_none.
    intros id kind Hkind.
    destruct (tokenSignature.Contains (Signature kind) t) eqn:Hcon; [|done].
    exfalso. apply (Hc id kind Hkind). by apply (strContains_In _ t). }
  rewrite (Hnone (c :: s)) by (by left).
  rewrite (Hnone (take 1 (c :: s))) by (by left).
  change (0 <? len (@nil Z)) with false. by rewrite andb_false_r.
Qed.

Lemma isToken_isolated G (c : ascii) id s :
  isolated (tokenKinds G) c id -> len (c :: s) < 2 ^ 64 ->
  isToken G (c :: s) = Done true.
Proof.
  intros [(k0 & Hk0 & Hsig0) Honly] Hlen.
  rewrite isToken_value; [|done|by left]. f_equal.
  assert (Hsp : (0 <? len (tokenKindMap.FindEx (tokenKinds G) [c] []))
                = true)
    by (apply FindEx_some; eauto).
  destruct s as [|d s]; [by rewrite Hsp|].
  change (take 1 (c :: d :: s)) with [c]. rewrite Hsp.
  rewrite bool_decide_eq_true_2; [apply orb_true_r|].
  apply Find_none. intros id' kind Hkind.
  destruct (tokenSignature.Contains _ _) eqn:Hcon; [|done]. exfalso.
  assert (id' = id) as ->.
  { apply (Honly id' kind Hkind).
    apply (strContains_In _ _ _ Hcon). by left. }
  rewrite Hk0 in Hkind. injection Hkind as <-.
  apply strContains_length in Hcon. rewrite Hsig0 in Hcon.
  cbn in Hcon. lia.
Qed.

Lemma findToken_alien G (f : nat) (c : ascii) s :
  alien (tokenKinds G) c ->
  findToken G (S f) (c :: s) 1 [] = Done (1, c :: s).
Proof.
  intros Hc. rewrite findToken_S, calcView_0 by lia.
  cbn [mbind outcome_bind].
  rewrite (bool_decide_eq_true_2 (len (@nil Z) = 0)) by reflexivity.
  change (take (Z.to_nat 1) (c :: s)) with [c].
  assert (Hnone : tokenKindMap.Find (tokenKinds G) [c] [] = []).
  { apply Find_none. intros id kind Hkind.
    destruct (tokenSignature.Contains _ _) eqn:Hcon; [|done]. exfalso.
    apply (Hc id kind Hkind), (strContains_In _ _ _ Hcon). by left. }
  by rewrite Hnone.
Qed.

Lemma findToken_isolated G (f : nat) (c : ascii) id s :
  isolated (tokenKinds G) c id ->
  findToken G (S f) (c :: s) 1 [] = Done (id, [c]).
Proof.
  intros [(k0 & Hk0 & Hsig0) Honly].
  rewrite findToken_S, calcView_0 by lia.
  cbn [mbind outcome_bind].
  rewrite (bool_decide_eq_true_2 (len (@nil Z) = 0)) by reflexivity.
  change (take (Z.to_nat 1) (c :: s)) with [c].
  assert (Hsig : Signature (tokenKindMap.index (tokenKinds G) id) = [c])
    by (unfold tokenKindMap.index; by rewrite Hk0).
  assert (Hfind : tokenKindMap.Find (tokenKinds G) [c] [] = [id]).
  { rewrite Find_all. apply filter_only.
    - apply Ids_NoDup.
    - apply In_Ids. eauto.
    - rewrite Hsig. apply strContains_refl.
    - intros id' [kind Hkind]%In_Ids Hcon.
      apply (Honly id' kind Hkind).
      unfold tokenKindMap.index in Hcon. rewrite Hkind in Hcon.
      apply (strContains_In _ _ _ Hcon). by left. }
  rewrite Hfind, FindEx_among. cbn [List.filter].
  rewrite Hsig. unfold tokenSignature.Compare.
  by rewrite bool_decide_eq_true_2.
Qed.

Lemma isolated_not_alien tkm (c : ascii) id :
  isolated tkm c id -> ~ alien tkm c.
Proof.
  intros [(k0 & Hk0 & Hsig0) _] Hc.
  apply (Hc id k0 Hk0). rewrite Hsig0. by left.
Qed.

(** The scanner stops a word at the isolated character that follows it, or
    at the end of the text. *)
Lemma findIdenToken_word G w tail :
  word (tokenKinds G) w ->
  tail = [] \/
  (exists c id tail', tail = c :: tail' /\ isolated (tokenKinds G) c id) ->
  len (w ++ tail) < 2 ^ 64 ->
  findIdenToken G (w ++ tail) = Done w.
Proof.
  intros [Hne Hw] Htail Hlen.
  destruct (decide (len (w ++ tail) = 1)) as [Hone|Hone].
  { unfold findIdenToken. rewrite bool_decide_eq_true_2 by done.
    destruct w as [|c [|d w]]; [done| |unfold len in Hone; cbn in Hone; lia].
    destruct tail; [done|unfold len in Hone; cbn in Hone; lia]. }
  assert (Hwl : (1 <= length w)%nat) by (destruct w; [done|cbn; lia]).
  destruct (findIdenToken_runs G (w ++ tail))
    as (k & -> & Hk & Htrue & Hfalse).
  { unfold len in *. rewrite length_app in *. lia. }
  assert (Hin : forall q : nat, (q < length w)%nat ->
            isToken G (drop q (w ++ tail)) = Done false).
  { intros q Hq. rewrite drop_app_le by lia.
    pose proof (Forall_drop _ q _ Hw) as Hd.
    destruct (drop q w) as [|c rest] eqn:Hdrop.
    { apply (f_equal length) in Hdrop. rewrite length_drop in Hdrop.
      cbn in Hdrop. lia. }
    apply Forall_cons in Hd as [Hc _]. cbn [app].
    apply isToken_alien; [done|].
    assert (Hle : (length (c :: rest ++ tail) <= length (w ++ tail))%nat).
    { change (c :: rest ++ tail) with ((c :: rest) ++ tail).
      rewrite <- Hdrop, !length_app, length_drop. lia. }
    unfold len in *. lia. }
  assert (Hkw : k = length w).
  { destruct (lt_eq_lt_dec k (length w)) as [[Hlt|Heq]|Hgt]; [|done|].
    - rewrite Hin in Htrue by done.
      discriminate Htrue. rewrite length_app. lia.
    - exfalso. rewrite length_app in Hk.
      destruct Htail as [->|(c & id & tail' & -> & Hiso)]; [cbn in Hk; lia|].
      specialize (Hfalse (length w) ltac:(lia)).
      rewrite drop_app_length, (isToken_isolated G c id) in Hfalse;
        [done|done|].
      assert (Hle : (length (c :: tail') <= length (w ++ c :: tail'))%nat)
        by (rewrite length_app; lia).
      unfold len in *. lia. }
  subst k. by rewrite take_app_length.
Qed.

Lemma sliceFrom_app pre rest :
  sliceFrom (pre ++ rest) (len pre) = Done rest.
Proof.
  unfold sliceFrom, slice, len. rewrite length_app.
  replace ((0 <=? Z.of_nat (length pre))
           && (Z.of_nat (length pre) <=? Z.of_nat (length pre + length rest))
           && (Z.of_nat (length pre + length rest)
               <=? Z.of_nat (length pre + length rest)))
    with true by (symmetry; rewrite !andb_true_iff, !Z.leb_le; lia).
  rewrite Nat2Z.id, drop_app_length. f_equal. apply take_ge. lia.
Qed.

Lemma TokenizeLine_loop_pieces G line lineNo pieces :
  len line < 2 ^ 64 ->
  forall (fuel : nat) pre tokens,
    line = pre ++ concat pieces.*1 ->
    Forall (piece (tokenKinds G)) pieces ->
    separated (tokenKinds G) pieces ->
    (length pieces <= fuel)%nat ->
    TokenizeLine_loop G fuel line lineNo (len pre) tokens
    = Done (tokens ++ pieceTokens (tokenKinds G) lineNo (len pre) pieces).
Proof.
  intros Hlen.
  induction pieces as [|[p id] pieces IH];
    intros fuel pre tokens Hline Hpieces Hsep Hfuel.
  - cbn [fmap list_fmap concat] in Hline. rewrite app_nil_r in Hline.
    subst pre. cbn [pieceTokens]. rewrite app_nil_r.
    assert (Hend : (len line <? wrap64 (len line)) = false).
    { unfold wrap64. rewrite Z.mod_small
        by (pose proof (len_nonneg line); lia).
      apply Z.ltb_irrefl. }
    destruct fuel; [rewrite TokenizeLine_loop_O|rewrite TokenizeLine_loop_S];
      by rewrite Hend.
  - destruct fuel as [|fuel]; [cbn in Hfuel; lia|].
    cbn [length] in Hfuel. rewrite fmap_cons in Hline.
    cbn [concat fst] in Hline.
    set (rest := concat pieces.*1) in *.
    apply Forall_cons in Hpieces as [Hp Hpieces].
    unfold piece in Hp. cbn [fst snd] in Hp.
    assert (Hpne : p <> []).
    { destruct Hp as [(c & -> & _)|[[Hne _] _]]; [discriminate|done]. }
    assert (Hlens : len line = len pre + len p + len rest).
    { rewrite Hline. unfold len. rewrite !length_app. lia. }
    assert (Hplen : 1 <= len p).
    { destruct p; [done|]. unfold len. cbn [length]. lia. }
    pose proof (len_nonneg pre) as Hpre.
    pose proof (len_nonneg rest) as Hrestlen.
    rewrite TokenizeLine_loop_S.
    replace (len pre <? wrap64 (len line)) with true
      by (symmetry; apply Z.ltb_lt; unfold wrap64;
          rewrite Z.mod_small by lia; lia).
    rewrite Hline at 1. rewrite sliceFrom_app. cbn [mbind outcome_bind].
    assert (Hsep' : separated (tokenKinds G) pieces).
    { cbn [separated] in Hsep. destruct pieces; [done|]. apply Hsep. }
    assert (Hstep :
      (findToken G (S fuel) (p ++ rest) 1 [] ≫=
         (λ '(id, sig),
            (if bool_decide (id = 1) then findIdenToken G sig else Done sig)
            ≫= λ sig' : bytes, Done (id, sig')))
      = Done (id, p)).
    { destruct Hp as [(c & -> & Hiso)|[Hword ->]].
      - change ([c] ++ rest) with (c :: rest).
        rewrite (findToken_isolated G fuel c id) by done.
        cbn [mbind outcome_bind].
        destruct (bool_decide (id = 1)); reflexivity.
      - destruct p as [|c p]; [done|].
        assert (Hc : alien (tokenKinds G) c).
        { destruct Hword as [_ Hw]. by apply Forall_cons in Hw as [Hw _]. }
        change ((c :: p) ++ rest) with (c :: (p ++ rest)).
        rewrite findToken_alien by done. cbn [mbind outcome_bind].
        rewrite bool_decide_eq_true_2 by done.
        change (c :: (p ++ rest)) with ((c :: p) ++ rest).
        rewrite findIdenToken_word; [reflexivity|done| |].
        + subst rest. destruct pieces as [|[q idq] pieces]; [by left|].
          right. cbn [separated fst] in Hsep. destruct Hsep as [Hnot _].
          apply Forall_cons in Hpieces as [Hq _].
          unfold piece in Hq. cbn [fst snd] in Hq.
          destruct Hq as [(d & -> & Hiso)|[Hwq _]]; [|by destruct Hnot].
          rewrite fmap_cons. cbn [concat fst app]. eauto.
        + unfold len in *. rewrite !length_app in *. lia. }
    destruct (findToken G (S fuel) (p ++ rest) 1 [])
      as [[id' sig]| |]; [|done|done].
    cbn [mbind outcome_bind] in Hstep |- *.
    destruct (if bool_decide (id' = 1) then _ else _) as [sig'| |];
      [|done|done].
    cbn [mbind outcome_bind] in Hstep |- *.
    injection Hstep as -> ->.
    unfold wrap64. rewrite !Z.mod_small by lia.
    replace (len pre + len p) with (len (pre ++ p))
      by (unfold len; rewrite length_app; lia).
    rewrite (IH fuel (pre ++ p)); [|by rewrite <- app_assoc|done|done|lia].
    cbn [pieceTokens fst snd]. rewrite <- app_assoc. cbn [app].
    replace (len (pre ++ p)) with (len pre + len p)
      by (unfold len; rewrite length_app; lia).
    reflexivity.
Qed.

(** Checks of [alien] and [isolated] over the entries of a table. *)
Lemma alien_check tkm (c : ascii) :
  forallb (fun e => negb (existsb (fun d => bool_decide (d = c))
                            (Signature e.2)))
          (map_to_list tkm) = true ->
  alien tkm c.
Proof.
  intros Hall id kind Hkind Hin.
  pose proof (forall_registered tkm
                (fun _ k => negb (existsb (fun d => bool_decide (d = c))
                                    (Signature k)))
                Hall id kind Hkind) as Hno.
  cbn beta in Hno. apply negb_true_iff in Hno.
  assert (Hex : existsb (fun d => bool_decide (d = c)) (Signature kind) = true).
  { apply existsb_exists. exists c. split; [done|].
    by apply bool_decide_eq_true. }
  congruence.
Qed.

Lemma isolated_check tkm (c : ascii) (id : Z) :
  Signature <$> tkm !! id = Some [c] ->
  forallb (fun e => negb (existsb (fun d => bool_decide (d = c))
                            (Signature e.2))
                    || bool_decide (e.1 = id))
          (map_to_list tkm) = true ->
  isolated tkm c id.
Proof.
  intros Hid Hall. split.
  - destruct (tkm !! id) as [kind|]; [|done]. injection Hid as Hid. eauto.
  - intros id' kind' Hkind Hin.
    pose proof (forall_registered tkm
                  (fun i k => negb (existsb (fun d => bool_decide (d = c))
                                      (Signature k))
                              || bool_decide (i = id))
                  Hall id' kind' Hkind) as Hno.
    cbn beta in Hno. apply orb_true_iff in Hno as [Hno|Hno].
    + apply negb_true_iff in Hno.
      assert (Hex : existsb (fun d => bool_decide (d = c)) (Signature kind')
                    = true).
      { apply existsb_exists. exists c. split; [done|].
        by apply bool_decide_eq_true. }
      congruence.
    + by apply bool_decide_eq_true in Hno.
Qed.

(** X14.  Words and isolated characters ([TokenizeLine], [findToken],
    [findIdenToken], [isToken]).  Call a character isolated when it is the
    whole signature of one registered kind and occurs in no other registered
    signature, and call a word a non-empty run of characters that occur in
    no registered signature.  A line made of isolated characters and words,
    no two words next to each other, is tokenized, for every budget of at
    least the number of pieces: [TokenizeLine] returns one token per piece,
    in order, an isolated character as its own kind and a word as the kind
    under the generic id 1, each with the text of its piece and the position
    of its piece. *)
Theorem TokenizeLine_words_and_isolated_characters :
  forall (G : Globals) (pieces : list (bytes * Z)) (fuel : nat) (lineNo : Z),
    Forall (piece (tokenKinds G)) pieces ->
    separated (tokenKinds G) pieces ->
    len (concat pieces.*1) < 2 ^ 64 ->
    (length pieces <= fuel)%nat ->
    TokenizeLine G fuel (concat pieces.*1) lineNo
    = Done (pieceTokens (tokenKinds G) lineNo 0 pieces).
Proof.
  intros G pieces fuel lineNo Hpieces Hsep Hlen Hfuel.
  unfold TokenizeLine.
  exact (TokenizeLine_loop_pieces G (concat pieces.*1) lineNo pieces Hlen
           fuel [] [] eq_refl Hpieces Hsep Hfuel).
Qed.

Lemma TokenizeLine_words_and_isolated_characters_witness :
  TokenizeLine reservedOnly 3 (b "ab cd") 5
  = Done [mkTokenObject (mkTokenKind 1 (b "GENIDEN") (b "&IDEN")) 5 1 (b "ab");
          mkTokenObject (mkTokenKind 0 (b "WHTSPACE") (b " ")) 5 3 (b " ");
          mkTokenObject (mkTokenKind 1 (b "GENIDEN") (b "&IDEN")) 5 4 (b "cd")].
Proof.
  assert (Ha : forall c, In c (b "abcd") -> alien (tokenKinds reservedOnly) c).
  { intros c [<-|[<-|[<-|[<-|[]]]]]; apply alien_check;
      vm_compute; reflexivity. }
  assert (Hs : isolated (tokenKinds reservedOnly) " "%char 0)
    by (apply isolated_check; vm_compute; reflexivity).
  assert (Hw : forall w, w <> [] -> (forall c, In c w -> In c (b "abcd")) ->
                 word (tokenKinds reservedOnly) w).
  { intros w Hne Hsub. split; [done|]. apply Forall_forall.
    intros c Hc. apply Ha, Hsub. by apply list_elem_of_In. }
  apply (TokenizeLine_words_and_isolated_characters reservedOnly
           [(b "ab", 1); (b " ", 0); (b "cd", 1)] 3%nat 5).
  - repeat apply Forall_cons_2; [right|left|right|apply Forall_nil_2].
    + split; [|done]. apply Hw; [discriminate|].
      intros c [<-|[<-|[]]]; cbn; tauto.
    + exists " "%char. by split.
    + split; [|done]. apply Hw; [discriminate|].
      intros c [<-|[<-|[]]]; cbn; tauto.
  - cbn [separated fst]. split; [|split; [|done]].
    + intros [_ [_ Hsp]]. apply Forall_cons in Hsp as [Hsp _].
      by apply (isolated_not_alien _ _ _ Hs).
    + intros [[_ Hsp] _]. apply Forall_cons in Hsp as [Hsp _].
      by apply (isolated_not_alien _ _ _ Hs).
  - vm_compute. reflexivity.
  - cbn. lia.
Defined.

(** ** Comments and fields of the tokens file *)

Lemma strIndex_eq s p :
  strIndex s p
  = if hasPrefix s p then 0
    else match s with
         | [] => -1
         | _ :: s' => let i := strIndex s' p in if i <? 0 then -1 else i + 1
         end.
Proof. by destruct s. Qed.

Lemma hasPrefix_app p l : hasPrefix (p ++ l) p = true.
Proof.
  induction p as [|c p IH]; [apply hasPrefix_nil|]. cbn.
  unfold byte_eqb. by rewrite bool_decide_eq_true_2, IH.
Qed.

Lemma hasPrefix_split s p :
  hasPrefix s p = true -> exists l, s = p ++ l.
Proof.
  revert s. induction p as [|c p IH]; intros s H; [by exists s|].
  destruct s as [|d s]; [done|]. cbn in H.
  apply andb_true_iff in H as [Hc H].
  apply bool_decide_eq_true in Hc as ->.
  destruct (IH s H) as [l ->]. by exists l.
Qed.

(** An occurrence of [p] at offset [len l1]: [strIndex] finds one, at that
    offset or before. *)
Lemma strIndex_occurrence s p l1 l2 :
  s = l1 ++ p ++ l2 -> 0 <= strIndex s p <= len l1.
Proof.
  revert s. induction l1 as [|c l1 IH]; intros s ->; rewrite strIndex_eq.
  - cbn [app]. rewrite hasPrefix_app. unfold len. cbn. lia.
  - destruct (hasPrefix _ p); [unfold len; cbn [length]; lia|].
    cbn [app]. cbv zeta.
    destruct (IH (l1 ++ p ++ l2) eq_refl) as [H0 H1].
    destruct (Z.ltb_spec (strIndex (l1 ++ p ++ l2) p) 0); [lia|].
    unfold len in *. cbn [length]. lia.
Qed.

(** What [strIndex] finds is an occurrence. *)
Lemma strIndex_found s p :
  0 <= strIndex s p ->
  exists l2, s = take (Z.to_nat (strIndex s p)) s ++ p ++ l2.
Proof.
  induction s as [|c s IH]; rewrite strIndex_eq.
  - destruct (hasPrefix [] p) eqn:Hp; [|lia]. intros _.
    apply hasPrefix_split in Hp as [l Hl]. exists l. by rewrite take_nil.
  - destruct (hasPrefix (c :: s) p) eqn:Hp.
    + intros _. apply hasPrefix_split in Hp as [l Hl]. by exists l.
    + cbv zeta. destruct (Z.ltb_spec (strIndex s p) 0); [lia|]. intros _.
      destruct IH as [l2 Hl2]; [done|]. exists l2.
      replace (Z.to_nat (strIndex s p + 1))
        with (S (Z.to_nat (strIndex s p))) by lia.
      cbn [take app]. by rewrite <- Hl2.
Qed.

(** A prefix of a text without [p] is without [p]. *)
Lemma strIndex_take_none s p (k : nat) :
  strIndex s p < 0 -> strIndex (take k s) p < 0.
Proof.
  intros Hnone.
  destruct (Z.lt_ge_cases (strIndex (take k s) p) 0) as [|Hpos]; [done|].
  apply strIndex_found in Hpos as [l2 Hl2].
  pose proof (strIndex_occurrence s p
                (take (Z.to_nat (strIndex (take k s) p)) (take k s))
                (l2 ++ drop k s)) as Hocc.
  rewrite <- (take_drop k s) in Hocc at 1.
  rewrite Hl2 in Hocc at 1. rewrite <- !app_assoc in Hocc.
  specialize (Hocc eq_refl). lia.
Qed.

(** The text before the first occurrence of [p] is without [p]. *)
Lemma strIndex_take_first s p :
  p <> [] -> 0 <= strIndex s p ->
  strIndex (take (Z.to_nat (strIndex s p)) s) p < 0.
Proof.
  intros Hp Hfound.
  set (i := Z.to_nat (strIndex s p)).
  destruct (Z.lt_ge_cases (strIndex (take i s) p) 0) as [|Hpos]; [done|].
  pose proof (strIndex_bound _ _ Hpos) as Hb.
  apply strIndex_found in Hpos as [l2 Hl2].
  pose proof (strIndex_occurrence s p
                (take (Z.to_nat (strIndex (take i s) p)) (take i s))
                (l2 ++ drop i s)) as Hocc.
  rewrite <- (take_drop i s) in Hocc at 1.
  rewrite Hl2 in Hocc at 1. rewrite <- !app_assoc in Hocc.
  specialize (Hocc eq_refl).
  assert (Hpl : 1 <= len p) by (destruct p; [done|unfold len; cbn; lia]).
  unfold len in *. rewrite !length_take in *. lia.
Qed.

Lemma trimRightSpaces_prefix s : exists k : nat, trimRightSpaces s = take k s.
Proof.
  induction s as [|c s [k IH]]; [by exists 0%nat|]. cbn [trimRightSpaces].
  destruct (trimRightSpaces s) as [|d t].
  - destruct (bool_decide (c = " "%char)); [by exists 0%nat|by exists 1%nat].
  - exists (S k). cbn [take]. by rewrite IH.
Qed.

(** What [justifyString] makes of the text before a comment. *)
Lemma justifyString_found s :
  0 <= findCommentPos s ->
  justifyString s (findCommentPos s)
  = Done (if bool_decide (take (Z.to_nat (findCommentPos s)) s = b "  ")
          then b " "
          else trimRightSpaces (take (Z.to_nat (findCommentPos s)) s)).
Proof.
  intros Hind. pose proof (strIndex_bound s (b "#:") Hind) as Hb.
  fold (findCommentPos s) in Hb. pose proof (len_nonneg (b "#:")).
  unfold justifyString.
  replace (findCommentPos s >=? 0) with true
    by (symmetry; apply Z.geb_le; lia).
  cbn [negb]. unfold sliceTo. rewrite slice_prefix by lia.
  cbn [mbind outcome_bind]. by destruct (bool_decide _).
Qed.

Lemma justifyString_clean s :
  0 <= findCommentPos s ->
  findCommentPos
    (if bool_decide (take (Z.to_nat (findCommentPos s)) s = b "  ")
     then b " "
     else trimRightSpaces (take (Z.to_nat (findCommentPos s)) s)) < 0.
Proof.
  intros Hind. destruct (bool_decide _); [by vm_compute|].
  destruct (trimRightSpaces_prefix (take (Z.to_nat (findCommentPos s)) s))
    as [k ->].
  apply strIndex_take_none, strIndex_take_first; [discriminate|done].
Qed.

Lemma parseComment_loop_clean (n : nat) temp ind :
  ind < 0 -> parseComment_loop n temp ind = Done temp.
Proof.
  intros Hind.
  assert (Hf : (ind >=? 0) = false)
    by (destruct (Z.geb_spec ind 0); [lia|done]).
  destruct n; cbn [parseComment_loop]; by rewrite Hf.
Qed.

(** The loop of [parseComment] runs at most twice. *)
Lemma parseComment_value line :
  parseComment line
  = Done (if findCommentPos line <? 0 then line
          else if bool_decide
                    (take (Z.to_nat (findCommentPos line)) line = b "  ")
               then b " "
               else trimRightSpaces
                      (take (Z.to_nat (findCommentPos line)) line)).
Proof.
  unfold parseComment.
  destruct (Z.ltb_spec (findCommentPos line) 0) as [Hneg|Hpos].
  - by apply parseComment_loop_clean.
  - pose proof (strIndex_bound line (b "#:") Hpos) as Hb.
    change (len (b "#:")) with 2 in Hb. fold (findCommentPos line) in Hb.
    cbn [parseComment_loop].
    replace (findCommentPos line >=? 0) with true
      by (symmetry; apply Z.geb_le; lia).
    rewrite justifyString_found by done. cbn [mbind outcome_bind].
    pose proof (justifyString_clean line Hpos) as Hclean.
    set (t := if bool_decide _ then _ else _) in *.
    destruct (length line) as [|n] eqn:Hn; [unfold len in Hb; lia|].
    cbn [parseComment_loop].
    replace (findCommentPos line >=? 0) with true
      by (symmetry; apply Z.geb_le; lia).
    unfold justifyString at 1.
    replace (findCommentPos t >=? 0) with false
      by (symmetry; destruct (Z.geb_spec (findCommentPos t) 0); [lia|done]).
    cbn [negb mbind outcome_bind].
    by apply parseComment_loop_clean.
Qed.

(** X15.  Comments ([parseComment], [justifyString], [findCommentPos]).
    [parseComment] always returns, and what it returns holds no comment
    mark.  A text without a comment mark is returned as it is, trailing
    spaces included.  Otherwise the text before the first mark is returned
    without its trailing spaces, except that a text of exactly two spaces
    before the mark gives one space. *)
Theorem parseComment_removes_comment :
  forall line : bytes,
    exists t,
      parseComment line = Done t /\
      findCommentPos t < 0 /\
      (findCommentPos line < 0 -> t = line) /\
      (0 <= findCommentPos line ->
       t = if bool_decide
                (take (Z.to_nat (findCommentPos line)) line = b "  ")
           then b " "
           else trimRightSpaces
                  (take (Z.to_nat (findCommentPos line)) line)).
Proof.
  intros line. eexists. split; [apply parseComment_value|].
  destruct (Z.ltb_spec (findCommentPos line) 0) as [Hneg|Hpos].
  - split; [done|]. split; [done|lia].
  - split; [by apply justifyString_clean|]. split; [lia|done].
Qed.

Lemma parseComment_none line :
  findCommentPos line < 0 -> parseComment line = Done line.
Proof.
  intros Hneg. rewrite parseComment_value.
  by replace (findCommentPos line <? 0) with true
    by (symmetry; by apply Z.ltb_lt).
Qed.

(** The first comment mark of a text that has none before an appended mark
    is the appended one. *)
Lemma findCommentPos_app body rest :
  findCommentPos body < 0 ->
  findCommentPos (body ++ b "#:" ++ rest) = len body.
Proof.
  unfold findCommentPos.
  induction body as [|c body IH].
  { intros _. change ([] ++ b "#:" ++ rest) with (b "#:" ++ rest).
    by rewrite strIndex_eq, hasPrefix_app. }
  rewrite (strIndex_eq (c :: body)).
  destruct (hasPrefix (c :: body) (b "#:")) eqn:Hp; [lia|]. cbv zeta.
  destruct (Z.ltb_spec (strIndex body (b "#:")) 0) as [Hneg|]; [|lia].
  intros _. specialize (IH Hneg).
  rewrite (strIndex_eq ((c :: body) ++ _)).
  assert (Hp' : hasPrefix ((c :: body) ++ b "#:" ++ rest) (b "#:") = false).
  { cbn in Hp |- *. unfold byte_eqb in *.
    destruct (bool_decide ("#"%char = c)); [|done]. cbn [andb] in *.
    destruct body as [|d body]; cbn [app hasPrefix] in *; unfold byte_eqb in *.
    - by rewrite bool_decide_eq_false_2 by discriminate.
    - rewrite hasPrefix_nil, andb_true_r in *. done. }
  rewrite Hp'. cbn [app]. cbv zeta. rewrite IH.
  pose proof (len_nonneg body).
  destruct (Z.ltb_spec (len body) 0); [lia|].
  unfold len. cbn [length]. lia.
Qed.

Lemma splitAtSpace_field name rest :
  ~ In " "%char name -> splitAtSpace (name ++ " "%char :: rest) = [name; rest].
Proof.
  induction name as [|c name IH]; intros Hsp.
  - cbn. by rewrite bool_decide_eq_true_2.
  - cbn [app splitAtSpace].
    rewrite bool_decide_eq_false_2 by (intros ->; apply Hsp; by left).
    rewrite IH; [done|]. intros Hin. apply Hsp. by right.
Qed.

Lemma splitAtSpace_whole line :
  ~ In " "%char line -> splitAtSpace line = [line].
Proof.
  induction line as [|c line IH]; intros Hsp; [done|].
  cbn [splitAtSpace].
  rewrite bool_decide_eq_false_2 by (intros ->; apply Hsp; by left).
  rewrite IH; [done|]. intros Hin. apply Hsp. by right.
Qed.

(** X16.  The documented line format ([parseLine], [parseComment]).  For a
    name without a space and a sequence, neither holding a comment mark:
    the line made of the name, one space and the sequence parses to the
    name and the sequence as written, trailing spaces included; with a
    comment appended it parses to the name and the sequence without its
    trailing spaces, a sequence of exactly two spaces giving one space. *)
Theorem parseLine_documented_format :
  forall name seq : bytes,
    ~ In " "%char name ->
    findCommentPos name < 0 ->
    findCommentPos seq < 0 ->
    parseLine (name ++ b " " ++ seq) = Done (name, seq) /\
    forall comment,
      parseLine (name ++ b " " ++ seq ++ b "#:" ++ comment)
      = Done (name, if bool_decide (seq = b "  ") then b " "
                    else trimRightSpaces seq).
Proof.
  intros name seq Hsp Hname Hseq. split; [|intros comment];
    unfold parseLine; change (b " " ++ ?r) with (" "%char :: r);
    rewrite splitAtSpace_field by done;
    rewrite (parseComment_none name) by done; cbn [mbind outcome_bind].
  - by rewrite parseComment_none.
  - rewrite parseComment_value, findCommentPos_app by done.
    pose proof (len_nonneg seq).
    replace (len seq <? 0) with false by (symmetry; apply Z.ltb_ge; lia).
    unfold len. by rewrite Nat2Z.id, take_app_length.
Qed.

Lemma parseLine_documented_format_witness :
  parseLine (b "EQEQ ==") = Done (b "EQEQ", b "==") /\
  parseLine (b "EQEQ ==   #: equality") = Done (b "EQEQ", b "==").
Proof.
  assert (Hsp : ~ In " "%char (b "EQEQ"))
    by (cbn; intros H; decompose [or] H; done).
  assert (Hname : findCommentPos (b "EQEQ") < 0) by (vm_compute; reflexivity).
  assert (H1 : findCommentPos (b "==") < 0) by (vm_compute; reflexivity).
  assert (H2 : findCommentPos (b "==   ") < 0) by (vm_compute; reflexivity).
  split.
  - exact (proj1 (parseLine_documented_format (b "EQEQ") (b "==")
                    Hsp Hname H1)).
  - exact (proj2 (parseLine_documented_format (b "EQEQ") (b "==   ")
                    Hsp Hname H2) (b " equality")).
Defined.

Lemma first_space l :
  In " "%char l ->
  exists l1 l2, l = l1 ++ " "%char :: l2 /\ ~ In " "%char l1.
Proof.
  induction l as [|c l IH]; [done|].
  destruct (decide (c = " "%char)) as [->|Hc].
  - intros _. exists [], l. split; [done|intros []].
  - intros [Heq|Hin]; [done|].
    destruct (IH Hin) as (l1 & l2 & -> & Hl1).
    exists (c :: l1), l2. split; [done|].
    intros [Heq|Hin']; [done|by apply Hl1].
Qed.

Lemma parseLine_ignored line :
  ~ In " "%char line \/
  (exists rest, line = b " " ++ rest) \/
  (exists rest, line = b "#:" ++ rest) ->
  exists seq, parseLine line = Done ([], seq).
Proof.
  assert (Hnosp : forall l, ~ In " "%char l ->
            exists seq, parseLine l = Done ([], seq)).
  { intros l Hl. unfold parseLine. rewrite splitAtSpace_whole by done.
    destruct (parseComment_returns l) as [t ->]. cbn. eauto. }
  intros [Hsp|[[rest ->]|[rest ->]]]; [by apply Hnosp| |].
  - unfold parseLine. change (b " " ++ rest) with ([] ++ " "%char :: rest).
    rewrite splitAtSpace_field by (intros []).
    rewrite (parseComment_none []) by (by vm_compute).
    destruct (parseComment_returns rest) as [t ->]. cbn. eauto.
  - destruct (in_dec ascii_dec " "%char rest) as [Hin|Hnot].
    + apply first_space in Hin as (r1 & r2 & -> & Hr1).
      unfold parseLine.
      change (b "#:" ++ r1 ++ " "%char :: r2)
        with ((b "#:" ++ r1) ++ " "%char :: r2).
      rewrite splitAtSpace_field.
      2: { intros [Hc|[Hc|Hc]]; [discriminate Hc|discriminate Hc|done]. }
      rewrite (parseComment_value (b "#:" ++ r1)).
      replace (findCommentPos (b "#:" ++ r1)) with 0
        by (unfold findCommentPos; by rewrite strIndex_eq, hasPrefix_app).
      cbn [Z.ltb Z.compare Z.to_nat take].
      rewrite bool_decide_eq_false_2 by discriminate.
      cbn [trimRightSpaces mbind outcome_bind].
      destruct (parseComment_returns r2) as [t ->]. cbn. eauto.
    + apply Hnosp.
      intros [Hc|[Hc|Hc]]; [discriminate Hc|discriminate Hc|done].
Qed.

Lemma parseLines_app l1 l2 :
  parseLines (l1 ++ l2)
  = d1 ← parseLines l1; d2 ← parseLines l2; Done (d1 ++ d2).
Proof.
  induction l1 as [|line l1 IH]; cbn [app parseLines].
  - by destruct (parseLines l2).
  - destruct (parseLine line) as [d| |]; [|done|done].
    cbn [mbind outcome_bind]. rewrite IH.
    destruct (parseLines l1) as [d1| |]; [|done|done].
    cbn [mbind outcome_bind].
    by destruct (parseLines l2).
Qed.

(** X17.  Lines that declare nothing ([loadTokens], [parseLine]).  A line
    of the tokens file without a space (the empty line among them), a line
    that starts with a space and a line that starts with the comment mark
    are skipped by the loader: the registry is the one of the file without
    the line; the ids of the kinds declared after it are not shifted. *)
Theorem loadTokens_skips_lines_without_name :
  forall (before after : list bytes) (line : bytes),
    ~ In " "%char line \/
    (exists rest, line = b " " ++ rest) \/
    (exists rest, line = b "#:" ++ rest) ->
    loadTokensFrom (before ++ line :: after) = loadTokensFrom (before ++ after).
Proof.
  intros l1 l2 line Hline.
  destruct (parseLine_ignored line Hline) as [seq Hseq].
  unfold loadTokensFrom. rewrite !parseLines_app. cbn [parseLines].
  rewrite Hseq. cbn [mbind outcome_bind].
  destruct (parseLines l1) as [d1| |]; [|done|done].
  cbn [mbind outcome_bind].
  destruct (parseLines l2) as [d2| |]; [|done|done].
  cbn [mbind outcome_bind]. f_equal.
  rewrite !loadTokens_addAll. f_equal.
  unfold registrations, declared. f_equal.
  rewrite !List.filter_app. reflexivity.
Qed.

Lemma loadTokens_skips_lines_without_name_witness :
  loadTokensFrom ([b "EQ ="] ++ b "#: operators" :: [b "EQEQ =="])
  = loadTokensFrom ([b "EQ ="] ++ [b "EQEQ =="]) /\
  loadTokensFrom ([b "EQ ="] ++ [b "EQEQ =="]) = Done withEq.
Proof.
  split; [|vm_compute; reflexivity].
  apply (loadTokens_skips_lines_without_name
           [b "EQ ="] [b "EQEQ =="] (b "#: operators")).
  right. right. by exists (b " operators").
Defined.

(** ** The rendering of the table *)

Lemma foldl_render {A} (f : A -> bytes) (l : list A) (acc : bytes) :
  foldl (fun render x => render ++ f x) acc l = acc ++ concat (f <$> l).
Proof.
  revert acc. induction l as [|x l IH]; intros acc; cbn.
  - by rewrite app_nil_r.
  - by rewrite IH, app_assoc.
Qed.

(** X18.  The rendering of a loaded table ([RenderTokenRepr], [String],
    [loadTokens]).  With fewer than 65536 registrations the rendering is one
    line per registration, in registration order, showing the id, the name
    and the signature of the registration.  With exactly 65536 registrations
    the 16-bit counter is back at 0 and the rendering is empty. *)
Theorem RenderTokenRepr_lists_registrations :
  forall parsed : list (bytes * bytes),
    (len (registrations parsed) < 2 ^ 16 ->
     RenderTokenRepr (loadTokens parsed)
     = concat (imap (fun i d => renderLine (kindOf (Z.of_nat i) d))
                    (registrations parsed))) /\
    (len (registrations parsed) = 2 ^ 16 ->
     RenderTokenRepr (loadTokens parsed) = []).
Proof.
  intros parsed. unfold RenderTokenRepr. rewrite foldl_render. cbn [app].
  split; intros Hlen.
  - assert (Hid : tokenKindId (loadTokens parsed)
                  = len (registrations parsed)).
    { rewrite loadTokens_addAll.
      destruct (addAll_init (registrations parsed)) as [-> _]; [lia|].
      unfold wrap16. apply Z.mod_small.
      pose proof (len_nonneg (registrations parsed)). lia. }
    rewrite Hid. f_equal. apply list_eq. intros i.
    rewrite list_lookup_fmap, list_lookup_imap.
    destruct (registrations parsed !! i) as [d|] eqn:Hd.
    + assert (Hi : Z.of_nat i < len (registrations parsed)).
      { apply lookup_lt_Some in Hd. unfold len. lia. }
      rewrite lookup_seqZ_lt by done. cbn [fmap option_fmap option_map].
      unfold tokenKindMap.index. rewrite loadTokens_lookup by lia.
      rewrite decide_True by lia. rewrite Z.add_0_l, Nat2Z.id, Hd.
      reflexivity.
    + apply lookup_ge_None in Hd.
      rewrite lookup_ge_None_2; [done|].
      rewrite length_seqZ. unfold len. lia.
  - assert (Hid : tokenKindId (loadTokens parsed) = 0).
    { rewrite loadTokens_addAll.
      destruct (addAll_init (registrations parsed)) as [-> _]; [lia|].
      by rewrite Hlen. }
    by rewrite Hid.
Qed.

Example renderLine_example :
  renderLine (mkTokenKind 7 (b "EQ") (b "="))
  = b "[7]" ++ ["009"%char] ++ b "Token[EQ]" ++ ["009"%char] ++ b "'='"
    ++ ["010"%char].
Proof. vm_compute. reflexivity. Qed.

(** ** Lists of lines, appended *)

Lemma concatLines_app G (fuel : nat) l1 l2 (i : Z) :
  concatLines G fuel (l1 ++ l2) i
  = toks1 ← concatLines G fuel l1 i;
    toks2 ← concatLines G fuel l2 (i + len l1);
    Done (toks1 ++ toks2).
Proof.
  revert i. induction l1 as [|line l1 IH]; intros i.
  - cbn [app concatLines mbind outcome_bind].
    change (len (@nil bytes)) with 0. rewrite Z.add_0_r.
    by destruct (concatLines G fuel l2 i).
  - cbn [app concatLines].
    destruct (TokenizeLine G fuel line i) as [toks| |]; [|done|done].
    cbn [mbind outcome_bind]. rewrite IH.
    replace (i + 1 + len l1) with (i + len (line :: l1))
      by (unfold len; cbn [length]; lia).
    destruct (concatLines G fuel l1 (i + 1)) as [toks1| |]; [|done|done].
    cbn [mbind outcome_bind].
    destruct (concatLines G fuel l2 _) as [toks2| |]; [|done|done].
    cbn [mbind outcome_bind]. by rewrite app_assoc.
Qed.

Lemma concatLines_shift G (fuel : nat) lines (i n : Z) :
  concatLines G fuel lines (i + n)
  = (fun toks : list TokenObject =>
       (fun t => withLineNo (LineNo t + n) t) <$> toks)
      <$> concatLines G fuel lines i.
Proof.
  revert i. induction lines as [|line lines IH]; intros i; [reflexivity|].
  cbn [concatLines].
  replace (i + n + 1) with (i + 1 + n) by lia. rewrite IH.
  rewrite (TokenizeLine_lineNo G fuel line (i + n) i).
  destruct (TokenizeLine G fuel line i) as [toks| |] eqn:Htoks;
    [|reflexivity|reflexivity].
  cbn [fmap outcome_fmap mbind outcome_bind].
  destruct (concatLines G fuel lines (i + 1)) as [rest| |];
    [|reflexivity|reflexivity].
  cbn [fmap outcome_fmap mbind outcome_bind]. f_equal.
  rewrite fmap_app. f_equal.
  apply TokenizeLine_LineNo_field in Htoks.
  unfold relabel. apply Forall_fmap_ext_1.
  eapply Forall_impl; [exact Htoks|]. intros t Ht. cbn beta in Ht.
  by rewrite Ht.
Qed.

(** X19.  Lists of lines, appended ([TokenizeLines], [TokenizeFile]).
    Tokenizing two lists of lines appended (fewer than 2^64 lines in all)
    is tokenizing the first, then the second, and appending the results,
    every token of the second with its line number raised by the number of
    lines of the first; if one of the two fails, the whole fails in the same
    way.  The same holds of [TokenizeFile] over the lines of a file. *)
Theorem TokenizeLines_of_appended_lists :
  forall (G : Globals) (fuel : nat) (l1 l2 : list bytes),
    len (l1 ++ l2) < 2 ^ 64 ->
    TokenizeLines G fuel (l1 ++ l2)
    = (toks1 ← TokenizeLines G fuel l1;
       toks2 ← TokenizeLines G fuel l2;
       Done (toks1
             ++ ((fun t => withLineNo (LineNo t + len l1) t) <$> toks2))) /\
    TokenizeFile G fuel (l1 ++ l2)
    = (toks1 ← TokenizeFile G fuel l1;
       toks2 ← TokenizeFile G fuel l2;
       Done (toks1
             ++ ((fun t => withLineNo (LineNo t + len l1) t) <$> toks2))).
Proof.
  intros G fuel l1 l2 Hlen.
  assert (Hl : forall lines, len lines < 2 ^ 64 ->
            TokenizeLines G fuel lines = concatLines G fuel lines 0).
  { intros lines H. unfold TokenizeLines.
    rewrite TokenizeLines_loop_concat by lia.
    by destruct (concatLines G fuel lines 0). }
  assert (Hf : forall lines, len lines < 2 ^ 64 ->
            TokenizeFile G fuel lines = concatLines G fuel lines 1).
  { intros lines H. unfold TokenizeFile.
    rewrite TokenizeFile_loop_concat by lia.
    change (0 + 1) with 1. by destruct (concatLines G fuel lines 1). }
  assert (H1 : len l1 < 2 ^ 64 /\ len l2 < 2 ^ 64).
  { unfold len in *. rewrite length_app in Hlen. lia. }
  destruct H1 as [H1 H2].
  rewrite !Hl, !Hf by done. rewrite !concatLines_app.
  rewrite !(concatLines_shift G fuel l2 _ (len l1)).
  split.
  - destruct (concatLines G fuel l1 0) as [toks1| |]; [|done|done].
    cbn [mbind outcome_bind].
    by destruct (concatLines G fuel l2 0).
  - destruct (concatLines G fuel l1 1) as [toks1| |]; [|done|done].
    cbn [mbind outcome_bind].
    by destruct (concatLines G fuel l2 1).
Qed.

Lemma TokenizeLines_of_appended_lists_witness :
  TokenizeLines withEq 5 ([b "a"] ++ [b "=="])
  = (toks1 ← TokenizeLines withEq 5 [b "a"];
     toks2 ← TokenizeLines withEq 5 [b "=="];
     Done (toks1
           ++ ((fun t => withLineNo (LineNo t + len [b "a"]) t) <$> toks2))) /\
  TokenizeLines withEq 5 ([b "a"] ++ [b "=="])
  = Done [mkTokenObject (mkTokenKind 1 (b "GENIDEN") (b "&IDEN")) 0 1 (b "a");
          mkTokenObject (mkTokenKind 8 (b "EQEQ") (b "==")) 1 1 (b "==")].
Proof.
  split; [|vm_compute; reflexivity].
  apply (TokenizeLines_of_appended_lists withEq 5%nat [b "a"] [b "=="]).
  vm_compute. reflexivity.
Defined.

(** ** A kind with a first character of its own *)

Lemma findToken_exclusive_from G id kind sig rest :
  tokenKinds G !! id = Some kind ->
  Signature kind = sig ->
  (forall id' kind' c,
      head sig = Some c ->
      tokenKinds G !! id' = Some kind' -> In c (Signature kind') ->
      id' = id) ->
  len (sig ++ rest) < 2 ^ 63 ->
  forall (m j fuel : nat),
    (1 <= j)%nat -> (j + m = length sig)%nat -> (m < fuel)%nat ->
    findToken G fuel (sig ++ rest) (Z.of_nat j) [] = Done (id, sig).
Proof.
  intros Hkind Hsig Honly Hlen.
  assert (Hidx : Signature (tokenKindMap.index (tokenKinds G) id) = sig)
    by (unfold tokenKindMap.index; by rewrite Hkind).
  induction m as [|m IH]; intros j fuel Hj Hjm Hfuel;
    (destruct fuel as [|fuel]; [lia|]);
    rewrite findToken_S;
    (rewrite calcView_0 by (unfold len in *; rewrite length_app in *; lia));
    cbn [mbind outcome_bind];
    rewrite (bool_decide_eq_true_2 (len (@nil Z) = 0)) by reflexivity;
    rewrite Nat2Z.id, take_app_le by lia.
  all: assert (Hfind : tokenKindMap.Find (tokenKinds G) (take j sig) []
                       = [id]).
  1, 3: rewrite Find_all; apply filter_only;
    [apply Ids_NoDup
    |apply In_Ids; eauto
    |rewrite Hidx; apply strContains_take, strContains_refl
    |].
  1, 2: intros id' [kind' Hkind']%In_Ids Hcon;
    unfold tokenKindMap.index in Hcon; rewrite Hkind' in Hcon;
    destruct sig as [|c sig']; [cbn in Hjm; lia|];
    apply (Honly id' kind' c eq_refl Hkind');
    apply (strContains_In _ _ _ Hcon);
    destruct j; [lia|by left].
  all: rewrite Hfind, FindEx_among; cbn [List.filter]; rewrite Hidx;
    unfold tokenSignature.Compare.
  - rewrite take_ge by lia. by rewrite bool_decide_eq_true_2.
  - rewrite bool_decide_eq_false_2.
    2: { intros Heq. apply (f_equal length) in Heq.
         rewrite length_take in Heq. lia. }
    unfold wrap64. rewrite Z.mod_small
      by (unfold len in *; rewrite length_app in *; lia).
    replace (Z.of_nat j + 1) with (Z.of_nat (S j)) by lia.
    apply IH; lia.
Qed.

(** X20.  A kind with a first character of its own ([findToken]).  When the
    first character of the signature of a registered kind occurs in no other
    registered signature, [findToken] recognises the kind at the start of
    every line that starts with its signature, whatever follows: it returns
    the id of the kind and the signature, within as many calls as the
    signature has characters. *)
Theorem findToken_recognises_exclusive_kind :
  forall (G : Globals) (fuel : nat) (id : Z) (kind : TokenKind)
         (c : ascii) (sig rest : bytes),
    tokenKinds G !! id = Some kind ->
    Signature kind = c :: sig ->
    (forall id' kind',
        tokenKinds G !! id' = Some kind' -> In c (Signature kind') ->
        id' = id) ->
    len (c :: sig ++ rest) < 2 ^ 63 ->
    (length (c :: sig) <= fuel)%nat ->
    findToken G fuel (c :: sig ++ rest) 1 [] = Done (id, c :: sig).
Proof.
  intros G fuel id kind c sig rest Hkind Hsig Honly Hlen Hfuel.
  change (c :: sig ++ rest) with ((c :: sig) ++ rest) in *.
  cbn [length] in Hfuel.
  apply (findToken_exclusive_from G id kind (c :: sig) rest Hkind Hsig)
    with (m := length sig) (j := 1%nat); [|done|lia|cbn [length]; lia|lia].
  intros id' kind' c' [= <-]. apply Honly.
Qed.

Lemma findToken_recognises_exclusive_kind_witness :
  findToken withEqEq 2 (b "==x") 1 [] = Done (7, b "==").
Proof.
  apply (findToken_recognises_exclusive_kind withEqEq 2%nat 7
           (mkTokenKind 7 (b "EQEQ") (b "==")) "="%char (b "=") (b "x")).
  - vm_compute. reflexivity.
  - reflexivity.
  - intros id' kind' Hk Hin.
    assert (Hall : forallb
              (fun e => negb (existsb (fun d => bool_decide (d = "="%char))
                                (Signature e.2))
                        || bool_decide (e.1 = 7))
              (map_to_list (tokenKinds withEqEq)) = true)
      by (vm_compute; reflexivity).
    pose proof (forall_registered (tokenKinds withEqEq)
                  (fun i k => negb (existsb
                                      (fun d => bool_decide (d = "="%char))
                                      (Signature k))
                              || bool_decide (i = 7))
                  Hall id' kind' Hk) as Hno.
    cbn beta in Hno. apply orb_true_iff in Hno as [Hno|Hno].
    + apply negb_true_iff in Hno.
      assert (Hex : existsb (fun d => bool_decide (d = "="%char))
                      (Signature kind') = true).
      { apply existsb_exists. exists "="%char. split; [done|].
        by apply bool_decide_eq_true. }
      congruence.
    + by apply bool_decide_eq_true in Hno.
  - vm_compute. reflexivity.
  - cbn. lia.
Defined.

(** ** Loading never fails *)

(** X21.  Loading never fails ([parseLine], [parseComment],
    [justifyString], [loadTokens]).  On every line [parseLine] returns a
    pair: the loop of [parseComment] ends, the slice of [justifyString] is
    within its text, and the branch of [parseLine] that panics on more than
    two parts is never taken.  So every sequence of lines loads, into the
    registry of the pairs parsed from the lines, one pair per line. *)
Theorem tokens_file_always_loads :
  forall lines : list bytes,
    (forall line, exists name seq, parseLine line = Done (name, seq)) /\
    exists parsed,
      parseLines lines = Done parsed /\
      length parsed = length lines /\
      loadTokensFrom lines = Done (loadTokens parsed).
Proof.
  intros lines. split.
  - intros line. destruct (parseLine_returns line) as [[name seq] H]. eauto.
  - unfold loadTokensFrom.
    assert (exists parsed, parseLines lines = Done parsed /\
                           length parsed = length lines) as (parsed & Hp & Hl).
    { induction lines as [|line lines (ds & IH & Hl)]; cbn [parseLines];
        [by exists []|].
      destruct (parseLine_returns line) as [d ->]. rewrite IH.
      exists (d :: ds). split; [done|]. cbn. by rewrite Hl. }
    exists parsed. by rewrite Hp.
Qed.

(** ** Words and isolated characters of a loaded registry *)

Lemma loadTokens_registered parsed (i : Z) kind :
  len (registrations parsed) <= 2 ^ 16 ->
  tokenKinds (loadTokens parsed) !! i = Some kind <->
  0 <= i /\
  exists d, registrations parsed !! Z.to_nat i = Some d /\ kind = kindOf i d.
Proof.
  intros Hlen. rewrite loadTokens_lookup by done.
  destruct (decide (0 <= i)) as [Hi|Hi].
  - destruct (registrations parsed !! Z.to_nat i) as [d|]; cbn.
    + split.
      * intros [= <-]. eauto.
      * intros (_ & d' & [= <-] & ->). done.
    + split; [done|]. by intros (_ & d' & [=] & _).
  - split; [done|]. intros [H _]. lia.
Qed.

Lemma loadTokens_isolated parsed (c : ascii) (id : nat) d0 :
  len (registrations parsed) <= 2 ^ 16 ->
  reservedKinds !! id = Some d0 -> d0.2 = [c] ->
  (forall (i : nat) d,
      reservedKinds !! i = Some d -> In c d.2 -> i = id) ->
  (forall d, In d (declared parsed) -> ~ In c d.2) ->
  isolated (tokenKinds (loadTokens parsed)) c (Z.of_nat id).
Proof.
  intros Hlen Hid Hsig Hres Hdecl. split.
  - exists (kindOf (Z.of_nat id) d0). split; [|done].
    apply loadTokens_registered; [done|]. split; [lia|].
    exists d0. split; [|done]. rewrite Nat2Z.id.
    unfold registrations. by apply lookup_app_l_Some.
  - intros id' kind' [Hpos (d & Hd & ->)]%loadTokens_registered Hin;
      [|done].
    cbn [kindOf Signature] in Hin. unfold registrations in Hd.
    apply lookup_app_Some in Hd as [Hd|[_ Hd]].
    + apply (Hres _ _ Hd) in Hin. lia.
    + exfalso. apply (Hdecl d); [|done].
      apply list_elem_of_In. by apply list_elem_of_lookup_2 in Hd.
Qed.

(** X22.  Words and isolated characters of a loaded registry
    ([loadTokens], [Add]).  In the registry that the loader builds (at most
    65536 registrations), a character occurs in no registered signature
    exactly when it occurs in no signature that the loader registers, the
    reserved ones included; and the space, the newline, the carriage return
    and the tab are each the whole signature of their reserved kind (ids 0,
    4, 5 and 6) and occur in no other registered signature, as long as no
    signature of the tokens file contains them. *)
Theorem loadTokens_alien_and_isolated :
  forall parsed : list (bytes * bytes),
    len (registrations parsed) <= 2 ^ 16 ->
    (forall c,
        alien (tokenKinds (loadTokens parsed)) c <->
        forall d, In d (registrations parsed) -> ~ In c d.2) /\
    (forall c id,
        In (c, id) [(" "%char, 0); ("010"%char, 4); ("013"%char, 5);
                    ("009"%char, 6)] ->
        (forall d, In d (declared parsed) -> ~ In c d.2) ->
        isolated (tokenKinds (loadTokens parsed)) c id).
Proof.
  intros parsed Hlen. split.
  - intros c. split.
    + intros Hc d [i Hi]%list_elem_of_In%list_elem_of_lookup_1.
      apply (Hc (Z.of_nat i) (kindOf (Z.of_nat i) d)).
      apply loadTokens_registered; [done|]. split; [lia|].
      exists d. by rewrite Nat2Z.id.
    + intros Hall id kind [_ (d & Hd & ->)]%loadTokens_registered; [|done].
      apply Hall, list_elem_of_In. by apply list_elem_of_lookup_2 in Hd.
  - assert (Hres : forall (c : ascii) (id : nat) d0,
              reservedKinds !! id = Some d0 -> d0.2 = [c] ->
              forallb (fun e => negb (existsb (fun x => bool_decide (x = c))
                                        e.2.2)
                                || bool_decide (e.1 = id))
                      (imap (fun i d => (i, d)) reservedKinds) = true ->
              (forall d, In d (declared parsed) -> ~ In c d.2) ->
              isolated (tokenKinds (loadTokens parsed)) c (Z.of_nat id)).
    { intros c id d0 Hid Hsig Hall Hdecl.
      apply (loadTokens_isolated parsed c id d0); [done|done|done| |done].
      intros i d Hd Hin. rewrite forallb_forall in Hall.
      specialize (Hall (i, d)). cbn [fst snd] in Hall.
      assert (Hmem : In (i, d) (imap (fun i d => (i, d)) reservedKinds)).
      { apply list_elem_of_In, list_elem_of_lookup. exists i.
        rewrite list_lookup_imap. apply fmap_Some. exists d.
        split; [exact Hd|done]. }
      apply Hall, orb_true_iff in Hmem as [Hno|Heq].
      - apply negb_true_iff in Hno.
        assert (Hex : existsb (fun x => bool_decide (x = c)) d.2 = true).
        { apply existsb_exists. exists c. split; [done|].
          by apply bool_decide_eq_true. }
        congruence.
      - by apply bool_decide_eq_true in Heq. }
    intros c id [[= <- <-]|[[= <- <-]|[[= <- <-]|[[= <- <-]|[]]]]] Hdecl.
    + by apply (Hres " "%char 0%nat _ eq_refl eq_refl).
    + by apply (Hres "010"%char 4%nat _ eq_refl eq_refl).
    + by apply (Hres "013"%char 5%nat _ eq_refl eq_refl).
    + by apply (Hres "009"%char 6%nat _ eq_refl eq_refl).
Qed.

Lemma loadTokens_alien_and_isolated_witness :
  isolated (tokenKinds withEq) "009"%char 6 /\
  (alien (tokenKinds withEq) "x"%char <->
   forall d, In d (registrations [(b "EQ", b "="); (b "EQEQ", b "==")]) ->
             ~ In "x"%char d.2).
Proof.
  assert (Hlen : len (registrations [(b "EQ", b "="); (b "EQEQ", b "==")])
                 <= 2 ^ 16) by (vm_compute; discriminate).
  destruct (loadTokens_alien_and_isolated
              [(b "EQ", b "="); (b "EQEQ", b "==")] Hlen) as [Ha Hi].
  split; [|exact (Ha "x"%char)].
  apply (Hi "009"%char 6).
  - cbn. tauto.
  - intros d [<-|[<-|[]]]; cbn; intros H; decompose [or] H; done.
Defined.
